(** * ChromeCrawler: the chrome crawling controller of w3af

    A shallow embedding of
    [w3af/core/controllers/chrome/crawler/main.py] and the properties of
    its worker life cycle (acquire, load, extract, cleanup, free or evict).

    The crawler drives external collaborators: the chrome pool, the
    instrumented chrome instances, the crawl strategies, the output manager.
    Their answers are given by a [World]; every interaction is recorded as
    an [event], and the methods of [ChromeCrawler] are programs in a small
    state-and-exception monad that emits these events.

    What is assumed of the collaborators:
    - [pool.get], [load_url], [wait_for_load], [stop], [load_about_blank]
      and the [crawl] of a strategy may raise any exception; the world says
      which.
    - [pool.free], [pool.remove] and [pool.terminate] do not raise (the
      specification gives a failure to [get] only), and neither do
      [set_debugging_id], [get_name], [rand_alnum], [om.out.debug] and
      [TookLine].
    - a strategy works on the chrome instance it is given and does not call
      the pool.
    - one call runs at a time; elapsed seconds are not modelled. *)

From stdpp Require Import base gmap sets list strings pretty.

Set Default Proof Using "Type".

(** ** Data *)

Abbreviation URL := string (only parsing).

(** The [debugging_id] keyword arguments default to [None]. *)
Abbreviation debugging_id := (option string) (only parsing).

(** An [InstrumentedChrome] object is known by its identity. *)
Abbreviation chrome := nat (only parsing).

(** One HTTP request and response pair seen by the browser. *)
Abbreviation HTTPExchange := string (only parsing).

(** The double quote character that the messages put around [%s]. *)
Definition dq : string := String (Ascii.ascii_of_nat 34) EmptyString.

(** Python exceptions that derive from [Exception].  [KeyboardInterrupt],
    [SystemExit] and [GeneratorExit] do not, and are outside the model. *)
Inductive exn : Type :=
| ChromeInterfaceException (msg : string)
| ChromeInterfaceTimeout (msg : string)
| ChromePoolException (msg : string)
| ChromeCrawlerException (msg : string)
| AssertionError (msg : string)
| AttributeError (msg : string)
| IndexError (msg : string)
| OtherException (cls msg : string).

(** [str(e)] *)
Definition str (e : exn) : string :=
  match e with
  | ChromeInterfaceException m | ChromeInterfaceTimeout m
  | ChromePoolException m | ChromeCrawlerException m
  | AssertionError m | AttributeError m | IndexError m
  | OtherException _ m => m
  end.

(** [except (ChromeInterfaceException, ChromeInterfaceTimeout)] *)
Definition is_chrome_interface_error (e : exn) : bool :=
  match e with
  | ChromeInterfaceException _ | ChromeInterfaceTimeout _ => true
  | _ => false
  end.

(** [except ChromePoolException] *)
Definition is_chrome_pool_exception (e : exn) : bool :=
  match e with
  | ChromePoolException _ => true
  | _ => false
  end.

(** [isinstance(e, ChromeCrawlerException)] *)
Definition is_chrome_crawler_exception (e : exn) : bool :=
  match e with
  | ChromeCrawlerException _ => true
  | _ => false
  end.

(** Values returned by the public methods. *)
Inductive value : Type :=
| VNone
| VBool (b : bool)
| VList (l : list string).

(** Modelled from the spec: [CrawlerHTTPTrafficQueue] (crawler/queue.py) is
    not among the sources.  It wraps the caller's queue, binds the
    correlation id that is attached to every forwarded entry, and counts the
    entries it forwarded. *)
Record CrawlerHTTPTrafficQueue : Type := mkQueue {
  http_traffic_queue : nat;
  queue_debugging_id : debugging_id;
  count : nat
}.

(** [CrawlerHTTPTrafficQueue(http_traffic_queue, debugging_id=debugging_id)] *)
Definition CrawlerHTTPTrafficQueue_new (q : nat) (did : debugging_id)
  : CrawlerHTTPTrafficQueue :=
  {| http_traffic_queue := q; queue_debugging_id := did; count := 0 |}.

(** The crawl strategies.  Both are built over [self._pool], which is the one
    pool of the store; the DOM dump also holds the web spider. *)
Inductive crawl_strategy : Type :=
| ChromeCrawlerJS
| ChromeCrawlerDOMDump (web_spider : nat).

(** Modelled from the spec: [ChromePool] (chrome/pool.py) is not among the
    sources.  A bounded set of workers: [_free] is the idle set that the
    diagnostic accessors read, [_in_use] the borrowed workers. *)
Record ChromePool : Type := mkPool {
  pool_uri_opener : option nat;
  pool_max_instances : option nat;
  _free : gset nat;
  _in_use : gset nat
}.

(** [ChromePool(uri_opener, max_instances=max_instances)] *)
Definition ChromePool_new (uri_opener : option nat) (max_instances : option nat)
  : ChromePool :=
  {| pool_uri_opener := uri_opener; pool_max_instances := max_instances;
     _free := ∅; _in_use := ∅ |}.

(** The attributes of a [ChromeCrawler] object. *)
Record ChromeCrawler : Type := mkCrawler {
  _uri_opener : option nat;
  _web_spider : option nat;
  _pool : ChromePool;
  _crawl_strategies : list crawl_strategy
}.

(** The mutable objects a call works on: the crawler, and for each chrome
    instance the traffic queue the pool attached to it
    ([chrome.http_traffic_queue]). *)
Record Store : Type := mkStore {
  self : ChromeCrawler;
  chrome_queue : gmap nat CrawlerHTTPTrafficQueue
}.

(** ** Events *)

(** The lines sent to [om.out.debug], by the place that writes them, with the
    arguments of the format string.  Seconds are not modelled. *)
Inductive log_line : Type :=
| LogGettingChrome (url : URL) (did : debugging_id)
| LogGetChromeFailed (cpe : exn) (did : debugging_id)
| LogUsing (c : chrome) (url : URL) (did : debugging_id)
| LogLoadFailed (url : URL) (c : chrome) (cie : exn) (did : debugging_id)
| LogWaitFailed (url : URL) (c : chrome) (cie : exn) (did : debugging_id)
| LogNotLoaded (url : URL) (did : debugging_id)
| LogStopFailed (c : chrome) (cie : exn) (did : debugging_id)
| LogInitialLoadFailed (url : URL) (e : exn) (did : debugging_id)
| LogCrawlFailed (url : URL) (c : chrome) (e : exn) (did : debugging_id)
| LogAboutBlankFailed (c : chrome) (cie : exn) (did : debugging_id)
| LogExtracted (n : nat) (url : URL) (c : chrome) (did : debugging_id).

(** The [TookLine] probes, by their message. *)
Inductive took_line : Type :=
| TookCleanup
| TookStrategy (name : string) (url : URL) (did : debugging_id)
| TookGetChrome
| TookLoadUrl (url : URL)
| TookStop.

(** What a call does to the world outside the crawler, in order.  Calls that
    can fail carry their outcome. *)
Inductive event : Type :=
| EvRandAlnum (n : nat) (s : string)
| EvDebug (l : log_line)
| EvTookSend (t : took_line)
| EvPoolGet (q : CrawlerHTTPTrafficQueue) (r : nat + exn)
| EvPoolFree (c : chrome)
| EvPoolRemove (c : chrome)
| EvPoolTerminate
| EvSetDebuggingId (c : chrome) (did : debugging_id)
| EvLoadUrl (c : chrome) (url : URL) (r : option exn)
| EvWaitForLoad (c : chrome) (r : bool + exn)
| EvStop (c : chrome) (r : option exn)
| EvLoadAboutBlank (c : chrome) (r : option exn)
| EvStrategyCrawl (s : crawl_strategy) (c : chrome) (url : URL)
    (did : debugging_id) (r : option exn)
| EvQueuePut (q : nat) (did : debugging_id) (x : HTTPExchange)
| EvPrint (s : string).

(** ** The world *)

(** The collaborators.  Each answer may depend on everything that happened
    before the call.  A call on a chrome instance also tells which HTTP
    exchanges the browser produced while it ran; these reach the traffic
    queue even when the call then fails. *)
Record World : Type := mkWorld {
  rand_alnum_w : list event → nat → string;
  pool_get_w : list event → CrawlerHTTPTrafficQueue → nat + exn;
  load_url_w : list event → chrome → URL → list HTTPExchange * option exn;
  wait_for_load_w : list event → chrome → list HTTPExchange * (bool + exn);
  stop_w : list event → chrome → list HTTPExchange * option exn;
  load_about_blank_w : list event → chrome → list HTTPExchange * option exn;
  strategy_crawl_w : list event → crawl_strategy → chrome → URL →
                     debugging_id → list HTTPExchange * option exn;
  get_name_w : crawl_strategy → string;
  str_chrome_w : chrome → string;
  get_console_messages_w : list event → chrome → list string;
  get_js_errors_w : list event → chrome → list string
}.

(** ** The monad *)

Inductive result (A : Type) : Type :=
| Return (a : A)
| Raise (e : exn).
Arguments Return {A} a.
Arguments Raise {A} e.

(** A program reads the history of events before it, changes the store and
    gives a result and the events it added. *)
Definition M (A : Type) : Type :=
  list event → Store → result A * Store * list event.

Definition ret {A} (a : A) : M A := fun _ σ => (Return a, σ, []).

Definition raise {A} (e : exn) : M A := fun _ σ => (Raise e, σ, []).

Definition bind {A B} (m : M A) (k : A → M B) : M B := fun h σ =>
  match m h σ with
  | (Return a, σ1, evs) =>
      match k a (h ++ evs) σ1 with
      | (r, σ2, evs') => (r, σ2, evs ++ evs')
      end
  | (Raise e, σ1, evs) => (Raise e, σ1, evs)
  end.

(** [try: m except Exception, e: handler e]; a handler that does not take an
    exception raises it again. *)
Definition try_except {A} (m : M A) (handler : exn → M A) : M A := fun h σ =>
  match m h σ with
  | (Return a, σ1, evs) => (Return a, σ1, evs)
  | (Raise e, σ1, evs) =>
      match handler e (h ++ evs) σ1 with
      | (r, σ2, evs') => (r, σ2, evs ++ evs')
      end
  end.

Declare Scope crawl_scope.
Delimit Scope crawl_scope with crawl.
Notation "x <- m ;; k" := (bind m (fun x => k))
  (at level 100, m at next level, right associativity) : crawl_scope.
Notation "m ;; k" := (bind m (fun _ => k))
  (at level 100, right associativity) : crawl_scope.
Open Scope crawl_scope.

Definition emit (ev : event) : M unit := fun _ σ => (Return tt, σ, [ev]).

Definition ask {A} (f : list event → A) : M A := fun h σ => (Return (f h), σ, []).

Definition gets {A} (f : Store → A) : M A := fun _ σ => (Return (f σ), σ, []).

Definition modify (f : Store → Store) : M unit := fun _ σ => (Return tt, f σ, []).

(** [for x in l: body x] *)
Fixpoint for_each {A} (l : list A) (body : A → M unit) : M unit :=
  match l with
  | [] => ret tt
  | x :: l' => body x ;; for_each l' body
  end.

(** ** Store updates *)

Definition set_pool (p : ChromePool) (σ : Store) : Store :=
  {| self := {| _uri_opener := _uri_opener (self σ);
                _web_spider := _web_spider (self σ);
                _pool := p;
                _crawl_strategies := _crawl_strategies (self σ) |};
     chrome_queue := chrome_queue σ |}.

Definition set_uri_opener (o : option nat) (σ : Store) : Store :=
  {| self := {| _uri_opener := o;
                _web_spider := _web_spider (self σ);
                _pool := _pool (self σ);
                _crawl_strategies := _crawl_strategies (self σ) |};
     chrome_queue := chrome_queue σ |}.

Definition set_web_spider (o : option nat) (σ : Store) : Store :=
  {| self := {| _uri_opener := _uri_opener (self σ);
                _web_spider := o;
                _pool := _pool (self σ);
                _crawl_strategies := _crawl_strategies (self σ) |};
     chrome_queue := chrome_queue σ |}.

Definition set_chrome_queue (c : chrome) (q : CrawlerHTTPTrafficQueue)
    (σ : Store) : Store :=
  {| self := self σ; chrome_queue := <[c := q]> (chrome_queue σ) |}.

(** Modelled from the spec: what [ChromePool.get] does to the pool once it
    has a worker [c] to hand out: [c] leaves the idle set and is in use. *)
Definition pool_take (c : chrome) (p : ChromePool) : ChromePool :=
  {| pool_uri_opener := pool_uri_opener p;
     pool_max_instances := pool_max_instances p;
     _free := _free p ∖ {[c]};
     _in_use := _in_use p ∪ {[c]} |}.

(** Modelled from the spec: [ChromePool.free] returns a healthy worker to the
    idle set. *)
Definition pool_give_back (c : chrome) (p : ChromePool) : ChromePool :=
  {| pool_uri_opener := pool_uri_opener p;
     pool_max_instances := pool_max_instances p;
     _free := _free p ∪ {[c]};
     _in_use := _in_use p ∖ {[c]} |}.

(** Modelled from the spec: [ChromePool.remove] is the permanent eviction of
    a worker. *)
Definition pool_evict (c : chrome) (p : ChromePool) : ChromePool :=
  {| pool_uri_opener := pool_uri_opener p;
     pool_max_instances := pool_max_instances p;
     _free := _free p ∖ {[c]};
     _in_use := _in_use p ∖ {[c]} |}.

(** Modelled from the spec: [ChromePool.terminate] shuts down all workers. *)
Definition pool_shutdown (p : ChromePool) : ChromePool :=
  {| pool_uri_opener := pool_uri_opener p;
     pool_max_instances := pool_max_instances p;
     _free := ∅;
     _in_use := ∅ |}.

(** ** The collaborators, as programs *)

Section Crawler.

Variable W : World.

(** [rand_alnum(n)] *)
Definition rand_alnum (n : nat) : M string :=
  s <- ask (fun h => rand_alnum_w W h n) ;;
  emit (EvRandAlnum n s) ;;
  ret s.

(** [om.out.debug(msg % args)] *)
Definition debug (l : log_line) : M unit := emit (EvDebug l).

(** [took_line.send()] *)
Definition took_send (t : took_line) : M unit := emit (EvTookSend t).

(** [self._pool.get(http_traffic_queue=q)]: the pool hands out a worker with
    the queue attached to it, or fails. *)
Definition pool_get (q : CrawlerHTTPTrafficQueue) : M chrome :=
  r <- ask (fun h => pool_get_w W h q) ;;
  emit (EvPoolGet q r) ;;
  match r with
  | inl c =>
      modify (fun σ => set_chrome_queue c q (set_pool (pool_take c (_pool (self σ))) σ)) ;;
      ret c
  | inr e => raise e
  end.

(** [self._pool.free(chrome)] *)
Definition pool_free (c : chrome) : M unit :=
  emit (EvPoolFree c) ;;
  modify (fun σ => set_pool (pool_give_back c (_pool (self σ))) σ).

(** [self._pool.remove(chrome)] *)
Definition pool_remove (c : chrome) : M unit :=
  emit (EvPoolRemove c) ;;
  modify (fun σ => set_pool (pool_evict c (_pool (self σ))) σ).

(** [self._pool.terminate()] *)
Definition pool_terminate : M unit :=
  emit EvPoolTerminate ;;
  modify (fun σ => set_pool (pool_shutdown (_pool (self σ))) σ).

(** Modelled from the spec: the queue attached to chrome [c] forwards the
    exchanges [xs] to the caller's queue, each tagged with the bound
    correlation id, and counts them. *)
Definition forward (c : chrome) (xs : list HTTPExchange) : M unit := fun _ σ =>
  match chrome_queue σ !! c with
  | Some q =>
      (Return tt,
       set_chrome_queue c
         {| http_traffic_queue := http_traffic_queue q;
            queue_debugging_id := queue_debugging_id q;
            count := count q + length xs |} σ,
       map (EvQueuePut (http_traffic_queue q) (queue_debugging_id q)) xs)
  | None => (Return tt, σ, [])
  end.

(** A call that returns nothing or raises. *)
Definition finish (r : option exn) : M unit :=
  match r with
  | None => ret tt
  | Some e => raise e
  end.

(** [chrome.set_debugging_id(debugging_id)] *)
Definition chrome_set_debugging_id (c : chrome) (did : debugging_id) : M unit :=
  emit (EvSetDebuggingId c did).

(** [chrome.load_url(url)] *)
Definition chrome_load_url (c : chrome) (url : URL) : M unit :=
  a <- ask (fun h => load_url_w W h c url) ;;
  forward c a.1 ;;
  emit (EvLoadUrl c url a.2) ;;
  finish a.2.

(** [chrome.wait_for_load()] *)
Definition chrome_wait_for_load (c : chrome) : M bool :=
  a <- ask (fun h => wait_for_load_w W h c) ;;
  forward c a.1 ;;
  emit (EvWaitForLoad c a.2) ;;
  match a.2 with
  | inl b => ret b
  | inr e => raise e
  end.

(** [chrome.stop()] *)
Definition chrome_stop (c : chrome) : M unit :=
  a <- ask (fun h => stop_w W h c) ;;
  forward c a.1 ;;
  emit (EvStop c a.2) ;;
  finish a.2.

(** [chrome.load_about_blank()] *)
Definition chrome_load_about_blank (c : chrome) : M unit :=
  a <- ask (fun h => load_about_blank_w W h c) ;;
  forward c a.1 ;;
  emit (EvLoadAboutBlank c a.2) ;;
  finish a.2.

(** [crawl_strategy.crawl(chrome, url, debugging_id=debugging_id)] *)
Definition strategy_crawl (s : crawl_strategy) (c : chrome) (url : URL)
    (did : debugging_id) : M unit :=
  a <- ask (fun h => strategy_crawl_w W h s c url did) ;;
  forward c a.1 ;;
  emit (EvStrategyCrawl s c url did a.2) ;;
  finish a.2.

(** [chrome.http_traffic_queue.count] *)
Definition chrome_http_traffic_queue_count (c : chrome) : M nat := fun h σ =>
  match chrome_queue σ !! c with
  | Some q => (Return (count q), σ, [])
  | None => (Raise (AttributeError "'NoneType' object has no attribute 'count'"), σ, [])
  end.

(** ** The methods of [ChromeCrawler] *)

(** [ChromeCrawler.__init__] *)
Definition __init__ (uri_opener : option nat) (max_instances : option nat)
    (web_spider : option nat) : ChromeCrawler :=
  let _crawl_strategies := [ChromeCrawlerJS] in
  {| _uri_opener := uri_opener;
     _web_spider := web_spider;
     _pool := ChromePool_new uri_opener max_instances;
     _crawl_strategies :=
       match web_spider with
       | Some ws => _crawl_strategies ++ [ChromeCrawlerDOMDump ws]
       | None => _crawl_strategies
       end |}.

(** [ChromeCrawler._get_chrome_from_pool] *)
Definition _get_chrome_from_pool (url : URL) (http_traffic_queue : nat)
    (did : debugging_id) : M chrome :=
  debug (LogGettingChrome url did) ;;
  let crawler_http_traffic_queue :=
    CrawlerHTTPTrafficQueue_new http_traffic_queue did in
  chrome <- try_except (pool_get crawler_http_traffic_queue)
    (fun cpe =>
       if is_chrome_pool_exception cpe then
         debug (LogGetChromeFailed cpe did) ;;
         raise (ChromeCrawlerException
                  ("Failed to get a chrome instance: " +:+ dq +:+ str cpe +:+ dq))
       else raise cpe) ;;
  took_send TookGetChrome ;;
  ret chrome.

(** [ChromeCrawler._initial_page_load] *)
Definition _initial_page_load (url : URL) (http_traffic_queue : nat)
    (did : debugging_id) : M chrome :=
  chrome <- _get_chrome_from_pool url http_traffic_queue did ;;
  debug (LogUsing chrome url did) ;;
  chrome_set_debugging_id chrome did ;;
  try_except (chrome_load_url chrome url)
    (fun cie =>
       if is_chrome_interface_error cie then
         debug (LogLoadFailed url chrome cie did) ;;
         pool_remove chrome ;;
         raise (ChromeCrawlerException
                  ("Failed to load " +:+ url +:+ " using " +:+ str_chrome_w W chrome
                   +:+ ": " +:+ dq +:+ str cie +:+ dq))
       else raise cie) ;;
  successfully_loaded <- try_except (chrome_wait_for_load chrome)
    (fun cie =>
       if is_chrome_interface_error cie then
         debug (LogWaitFailed url chrome cie did) ;;
         pool_remove chrome ;;
         raise (ChromeCrawlerException
                  ("Exception raised while waiting for page load of " +:+ url
                   +:+ " using " +:+ str_chrome_w W chrome
                   +:+ ": " +:+ dq +:+ str cie +:+ dq))
       else raise cie) ;;
  (if negb successfully_loaded then debug (LogNotLoaded url did) else ret tt) ;;
  took_send (TookLoadUrl url) ;;
  try_except (chrome_stop chrome)
    (fun cie =>
       if is_chrome_interface_error cie then
         debug (LogStopFailed chrome cie did) ;;
         pool_remove chrome ;;
         raise (ChromeCrawlerException "Failed to stop chrome browser")
       else raise cie) ;;
  took_send TookStop ;;
  ret chrome.

(** [ChromeCrawler._cleanup] *)
Definition _cleanup (url : URL) (chrome : chrome) (did : debugging_id) : M value :=
  try_except (chrome_load_about_blank chrome)
    (fun cie =>
       if is_chrome_interface_error cie then
         debug (LogAboutBlankFailed chrome cie did) ;;
         pool_remove chrome ;;
         raise (ChromeCrawlerException "Failed to load about:blank in chrome browser")
       else raise cie) ;;
  pool_free chrome ;;
  n <- chrome_http_traffic_queue_count chrome ;;
  debug (LogExtracted n url chrome did) ;;
  took_send TookCleanup ;;
  ret (VBool true).

(** The body of the loop of [ChromeCrawler._crawl]. *)
Definition _crawl_body (url : URL) (http_traffic_queue : nat)
    (did : debugging_id) (crawl_strategy : crawl_strategy) : M unit :=
  chrome <- try_except (_initial_page_load url http_traffic_queue did)
    (fun e =>
       debug (LogInitialLoadFailed url e did) ;;
       raise e) ;;
  let took_line := TookStrategy (get_name_w W crawl_strategy) url did in
  try_except (strategy_crawl crawl_strategy chrome url did)
    (fun e =>
       debug (LogCrawlFailed url chrome e did) ;;
       took_send took_line ;;
       pool_remove chrome ;;
       raise e) ;;
  try_except (_ <- _cleanup url chrome did ;; ret tt)
    (fun e =>
       debug (LogCrawlFailed url chrome e did) ;;
       took_send took_line ;;
       raise e) ;;
  took_send took_line.

(** [ChromeCrawler._crawl] *)
Definition _crawl (url : URL) (http_traffic_queue : nat) (did : debugging_id)
  : M value :=
  strategies <- gets (fun σ => _crawl_strategies (self σ)) ;;
  for_each strategies (_crawl_body url http_traffic_queue did) ;;
  ret VNone.

(** [ChromeCrawler.crawl] *)
Definition crawl (url : URL) (http_traffic_queue : nat) : M value :=
  debugging_id <- rand_alnum 8 ;;
  _ <- _crawl url http_traffic_queue (Some debugging_id) ;;
  ret VNone.

(** [ChromeCrawler.terminate] *)
Definition terminate : M value :=
  pool_terminate ;;
  modify (set_uri_opener None) ;;
  modify (set_web_spider None) ;;
  ret VNone.

(** The assertion of the two diagnostic accessors. *)
Definition assert_one_free : M unit :=
  n <- gets (fun σ => size (_free (_pool (self σ)))) ;;
  if bool_decide (n = 1) then ret tt
  else raise (AssertionError
                ("Chrome pool has " +:+ pretty n +:+ " instances, one is required")).

(** [list(self._pool._free)[0]] *)
Definition first_free : M chrome :=
  l <- gets (fun σ => elements (_free (_pool (self σ)))) ;;
  match l with
  | c :: _ => ret c
  | [] => raise (IndexError "list index out of range")
  end.

(** [ChromeCrawler.print_all_console_messages] *)
Definition print_all_console_messages : M value :=
  assert_one_free ;;
  instrumented_chrome <- first_free ;;
  console_messages <- ask (fun h => get_console_messages_w W h instrumented_chrome) ;;
  for_each console_messages (fun console_message => emit (EvPrint console_message)) ;;
  ret VNone.

(** [ChromeCrawler.get_js_errors] *)
Definition get_js_errors : M value :=
  assert_one_free ;;
  instrumented_chrome <- first_free ;;
  js_errors <- ask (fun h => get_js_errors_w W h instrumented_chrome) ;;
  ret (VList js_errors).

End Crawler.

(** ** Observations on the events of a call *)

(** The calls made on the pool, on chrome instances and on strategies. *)
Definition is_call (ev : event) : bool :=
  match ev with
  | EvPoolGet _ _ | EvPoolFree _ | EvPoolRemove _ | EvPoolTerminate
  | EvSetDebuggingId _ _ | EvLoadUrl _ _ _ | EvWaitForLoad _ _ | EvStop _ _
  | EvLoadAboutBlank _ _ | EvStrategyCrawl _ _ _ _ _ => true
  | _ => false
  end.

Definition calls (evs : list event) : list event := List.filter is_call evs.

(** The calls made on the pool. *)
Definition is_pool_call (ev : event) : bool :=
  match ev with
  | EvPoolGet _ _ | EvPoolFree _ | EvPoolRemove _ | EvPoolTerminate => true
  | _ => false
  end.

Definition pool_calls (evs : list event) : list event :=
  List.filter is_pool_call evs.

(** The exception a call ended with, if it raised. *)
Definition raised (ev : event) : option exn :=
  match ev with
  | EvPoolGet _ (inr e) | EvLoadUrl _ _ (Some e) | EvWaitForLoad _ (inr e)
  | EvStop _ (Some e) | EvLoadAboutBlank _ (Some e)
  | EvStrategyCrawl _ _ _ _ (Some e) => Some e
  | _ => None
  end.

Definition has_raised (ev : event) : bool :=
  match raised ev with
  | Some _ => true
  | None => false
  end.

(** The calls that raised. *)
Definition failures (evs : list event) : list event :=
  List.filter has_raised evs.

(** The workers the pool handed out, in order. *)
Definition acquired (evs : list event) : list chrome :=
  omap (fun ev => match ev with EvPoolGet _ (inl c) => Some c | _ => None end) evs.

(** The strategies that were invoked, in order. *)
Definition invoked (evs : list event) : list crawl_strategy :=
  omap (fun ev => match ev with EvStrategyCrawl s _ _ _ _ => Some s | _ => None end) evs.

(** How often [c] was returned to the pool, and how often it was evicted. *)
Definition frees (c : chrome) (evs : list event) : nat :=
  length (List.filter
            (fun ev => match ev with EvPoolFree c' => bool_decide (c' = c) | _ => false end)
            evs).

Definition removes (c : chrome) (evs : list event) : nat :=
  length (List.filter
            (fun ev => match ev with EvPoolRemove c' => bool_decide (c' = c) | _ => false end)
            evs).

(** The correlation ids generated by [rand_alnum]. *)
Definition generated (evs : list event) : list (nat * string) :=
  omap (fun ev => match ev with EvRandAlnum n s => Some (n, s) | _ => None end) evs.

(** The correlation id a log line is written with. *)
Definition log_did (l : log_line) : debugging_id :=
  match l with
  | LogGettingChrome _ did | LogGetChromeFailed _ did | LogUsing _ _ did
  | LogLoadFailed _ _ _ did | LogWaitFailed _ _ _ did | LogNotLoaded _ did
  | LogStopFailed _ _ did | LogInitialLoadFailed _ _ did
  | LogCrawlFailed _ _ _ did | LogAboutBlankFailed _ _ did
  | LogExtracted _ _ _ did => did
  end.

(** The correlation id an event carries: log lines, the traffic queue bound
    at [get], the chrome debugging id, the strategy invocation, and every
    entry forwarded to the caller's queue. *)
Definition event_did (ev : event) : option debugging_id :=
  match ev with
  | EvDebug l => Some (log_did l)
  | EvTookSend (TookStrategy _ _ did) => Some did
  | EvPoolGet q _ => Some (queue_debugging_id q)
  | EvSetDebuggingId _ did => Some did
  | EvStrategyCrawl _ _ _ did _ => Some did
  | EvQueuePut _ did _ => Some did
  | _ => None
  end.

Definition carries (did : debugging_id) (ev : event) : Prop :=
  match event_did ev with
  | Some d => d = did
  | None => True
  end.

(** The event belongs to the job with correlation id [did] whose traffic
    goes to the queue [q]: it carries no other id, forwards to no other queue,
    and generates no other id. *)
Definition of_job (q : nat) (did : debugging_id) (ev : event) : Prop :=
  carries did ev ∧
  match ev with
  | EvQueuePut q' _ _ => q' = q
  | EvRandAlnum _ _ => False
  | _ => True
  end.

(** The entries forwarded to the caller's queue, with their tag. *)
Definition forwarded (evs : list event) : list (nat * debugging_id * HTTPExchange) :=
  omap (fun ev => match ev with EvQueuePut q did x => Some (q, did, x) | _ => None end) evs.

(** The lines that tell that the page did not finish loading. *)
Definition is_not_loaded_line (ev : event) : bool :=
  match ev with
  | EvDebug (LogNotLoaded _ _) => true
  | _ => false
  end.

Definition not_loaded_lines (evs : list event) : nat :=
  length (List.filter is_not_loaded_line evs).

(** Alphanumeric strings of a given length. *)
Definition is_alnum (a : Ascii.ascii) : bool :=
  let n := Ascii.nat_of_ascii a in
  ((48 <=? n) && (n <=? 57)) || ((65 <=? n) && (n <=? 90))
  || ((97 <=? n) && (n <=? 122)).

Definition alnum_of_length (n : nat) (s : string) : Prop :=
  String.length s = n ∧ forallb is_alnum (String.list_ascii_of_string s) = true.

(** ** The calls of one turn of the loop *)

(** The calls of a turn that succeeds: one worker is taken from the pool,
    loaded, waited for, stopped, crawled by the strategy, blanked and
    returned. *)
Definition turn_calls (url : URL) (q : nat) (did : debugging_id)
    (s : crawl_strategy) (cb : chrome * bool) : list event :=
  [EvPoolGet (CrawlerHTTPTrafficQueue_new q did) (inl cb.1);
   EvSetDebuggingId cb.1 did;
   EvLoadUrl cb.1 url None;
   EvWaitForLoad cb.1 (inl cb.2);
   EvStop cb.1 None;
   EvStrategyCrawl s cb.1 url did None;
   EvLoadAboutBlank cb.1 None;
   EvPoolFree cb.1].

(** The handlers of [load_url], [wait_for_load], [stop] and
    [load_about_blank] evict the worker and wrap the error when it is a
    chrome interface error, and let any other exception pass. *)
Definition evicted_if_interface_error (e : exn) (c : chrome) : list event :=
  if is_chrome_interface_error e then [EvPoolRemove c] else [].

Definition wrapped (e : exn) (msg : string) : exn :=
  if is_chrome_interface_error e then ChromeCrawlerException msg else e.

(** The paths through the body of the loop of [_crawl], by their result and
    their calls. *)
Inductive turn (W : World) (url : URL) (q : nat) (did : debugging_id)
    (s : crawl_strategy) : result unit → list event → Prop :=
| turn_get_raises e :
    turn W url q did s
      (Raise (if is_chrome_pool_exception e
              then ChromeCrawlerException
                     ("Failed to get a chrome instance: " +:+ dq +:+ str e +:+ dq)
              else e))
      [EvPoolGet (CrawlerHTTPTrafficQueue_new q did) (inr e)]
| turn_load_raises c e :
    turn W url q did s
      (Raise (wrapped e ("Failed to load " +:+ url +:+ " using "
                         +:+ str_chrome_w W c +:+ ": " +:+ dq +:+ str e +:+ dq)))
      ([EvPoolGet (CrawlerHTTPTrafficQueue_new q did) (inl c);
        EvSetDebuggingId c did;
        EvLoadUrl c url (Some e)] ++ evicted_if_interface_error e c)
| turn_wait_raises c e :
    turn W url q did s
      (Raise (wrapped e ("Exception raised while waiting for page load of "
                         +:+ url +:+ " using " +:+ str_chrome_w W c +:+ ": "
                         +:+ dq +:+ str e +:+ dq)))
      ([EvPoolGet (CrawlerHTTPTrafficQueue_new q did) (inl c);
        EvSetDebuggingId c did;
        EvLoadUrl c url None;
        EvWaitForLoad c (inr e)] ++ evicted_if_interface_error e c)
| turn_stop_raises c b e :
    turn W url q did s
      (Raise (wrapped e "Failed to stop chrome browser"))
      ([EvPoolGet (CrawlerHTTPTrafficQueue_new q did) (inl c);
        EvSetDebuggingId c did;
        EvLoadUrl c url None;
        EvWaitForLoad c (inl b);
        EvStop c (Some e)] ++ evicted_if_interface_error e c)
| turn_strategy_raises c b e :
    turn W url q did s
      (Raise e)
      [EvPoolGet (CrawlerHTTPTrafficQueue_new q did) (inl c);
       EvSetDebuggingId c did;
       EvLoadUrl c url None;
       EvWaitForLoad c (inl b);
       EvStop c None;
       EvStrategyCrawl s c url did (Some e);
       EvPoolRemove c]
| turn_about_blank_raises c b e :
    turn W url q did s
      (Raise (wrapped e "Failed to load about:blank in chrome browser"))
      ([EvPoolGet (CrawlerHTTPTrafficQueue_new q did) (inl c);
        EvSetDebuggingId c did;
        EvLoadUrl c url None;
        EvWaitForLoad c (inl b);
        EvStop c None;
        EvStrategyCrawl s c url did None;
        EvLoadAboutBlank c (Some e)] ++ evicted_if_interface_error e c)
| turn_returns c b :
    turn W url q did s (Return tt) (turn_calls url q did s (c, b)).

(** The runs of the loop over a list of strategies: turns that return,
    until the list ends or a turn raises. *)
Inductive turns (W : World) (url : URL) (q : nat) (did : debugging_id)
  : list crawl_strategy → result unit → list event → Prop :=
| turns_done :
    turns W url q did [] (Return tt) []
| turns_raise s l e cs :
    turn W url q did s (Raise e) cs →
    turns W url q did (s :: l) (Raise e) cs
| turns_next s l cb r cs :
    turns W url q did l r cs →
    turns W url q did (s :: l) r (turn_calls url q did s cb ++ cs).

(** The pool calls of turns that returned: each worker handed out is
    given back once. *)
Definition given_back (q : nat) (did : debugging_id) (ws : list chrome)
  : list event :=
  flat_map
    (fun c => [EvPoolGet (CrawlerHTTPTrafficQueue_new q did) (inl c); EvPoolFree c])
    ws.

(** The failed calls after which the crawler evicts the worker: any failure
    of a strategy, and the chrome interface errors of the other calls on a
    chrome instance. *)
Definition evicts (ev : event) : bool :=
  match ev with
  | EvStrategyCrawl _ _ _ _ (Some _) => true
  | EvLoadUrl _ _ (Some e) | EvStop _ (Some e) | EvLoadAboutBlank _ (Some e)
  | EvWaitForLoad _ (inr e) => is_chrome_interface_error e
  | _ => false
  end.

(** A failed [load_url], [wait_for_load], [stop] or [load_about_blank]. *)
Definition interface_call_failure (ev : event) : option (chrome * exn) :=
  match ev with
  | EvLoadUrl c _ (Some e) | EvStop c (Some e) | EvLoadAboutBlank c (Some e)
  | EvWaitForLoad c (inr e) => Some (c, e)
  | _ => None
  end.

(** The chrome instance a call was made on. *)
Definition called_on (ev : event) : option chrome :=
  match ev with
  | EvSetDebuggingId c _ | EvLoadUrl c _ _ | EvWaitForLoad c _ | EvStop c _
  | EvLoadAboutBlank c _ | EvStrategyCrawl _ c _ _ _ => Some c
  | _ => None
  end.

(** The pool after the pool calls among [evs]. *)
Definition replay_call (p : ChromePool) (ev : event) : ChromePool :=
  match ev with
  | EvPoolGet _ (inl c) => pool_take c p
  | EvPoolFree c => pool_give_back c p
  | EvPoolRemove c => pool_evict c p
  | EvPoolTerminate => pool_shutdown p
  | _ => p
  end.

Definition replay (evs : list event) (p : ChromePool) : ChromePool :=
  fold_left replay_call evs p.

(** ** The sentences of the specification that the code does not meet *)

(** One worker serves the whole job: it is acquired and loaded once, every
    strategy runs on it in order, and one cleanup ends in one free or
    evict. *)
Definition one_worker_job (url : URL) (q : nat) (did : debugging_id)
    (l : list crawl_strategy) (cs : list event) : Prop :=
  ∃ c b blank fin,
    (fin = EvPoolFree c ∨ fin = EvPoolRemove c) ∧
    cs = [EvPoolGet (CrawlerHTTPTrafficQueue_new q did) (inl c);
          EvSetDebuggingId c did;
          EvLoadUrl c url None;
          EvWaitForLoad c (inl b);
          EvStop c None]
         ++ map (fun s => EvStrategyCrawl s c url did None) l
         ++ [EvLoadAboutBlank c blank; fin].

(** Every borrowed worker is freed once and never evicted when the job
    returns, and evicted when the job fails. *)
Definition freed_or_evicted (r : result value) (evs : list event) : Prop :=
  ∀ c, c ∈ acquired evs →
    match r with
    | Return _ => frees c evs = 1 ∧ removes c evs = 0
    | Raise _ => removes c evs = 1
    end.

(** The failure of a strategy reaches the caller as a
    [ChromeCrawlerException]. *)
Definition strategy_failure_is_wrapped (r : result value) (evs : list event)
  : Prop :=
  ∀ s c url did e,
    EvStrategyCrawl s c url did (Some e) ∈ evs →
    ∃ msg, r = Raise (ChromeCrawlerException msg).

(** The console message accessor returns a sequence of strings. *)
Definition returns_a_list (r : result value) : Prop :=
  ∃ msgs, r = Return (VList msgs).

(** ** Scenarios *)

(** A world in which every call succeeds, except that the page never
    finishes loading in time: [wait_for_load] answers [False].  The pool
    hands out a new worker at each [get]. *)
Definition slow_page_world : World :=
  {| rand_alnum_w := fun _ _ => "a1B2c3D4";
     pool_get_w := fun h _ => inl (S (length (acquired h)));
     load_url_w := fun _ _ _ => (["GET /"], None);
     wait_for_load_w := fun _ _ => ([], inl false);
     stop_w := fun _ _ => ([], None);
     load_about_blank_w := fun _ _ => ([], None);
     strategy_crawl_w := fun _ _ _ _ _ => (["GET /app.js"], None);
     get_name_w := fun s =>
       match s with
       | ChromeCrawlerJS => "JS events"
       | ChromeCrawlerDOMDump _ => "DOM dump"
       end;
     str_chrome_w := fun c => "<InstrumentedChrome>";
     get_console_messages_w := fun _ _ => ["hello"; "world"];
     get_js_errors_w := fun _ _ => ["ReferenceError: x is not defined"] |}.

(** The same world, with each of the calls on chrome and on the strategy
    failing in turn.  [socket_error] is not a chrome interface error. *)
Definition socket_error : exn := OtherException "socket.error" "Connection reset by peer".

Definition timeout_error : exn := ChromeInterfaceTimeout "timeout waiting for event".

Definition with_load_url (a : list HTTPExchange * option exn) (W : World) : World :=
  {| rand_alnum_w := rand_alnum_w W;
     pool_get_w := pool_get_w W;
     load_url_w := fun _ _ _ => a;
     wait_for_load_w := wait_for_load_w W;
     stop_w := stop_w W;
     load_about_blank_w := load_about_blank_w W;
     strategy_crawl_w := strategy_crawl_w W;
     get_name_w := get_name_w W;
     str_chrome_w := str_chrome_w W;
     get_console_messages_w := get_console_messages_w W;
     get_js_errors_w := get_js_errors_w W |}.

Definition with_load_about_blank (a : list HTTPExchange * option exn) (W : World)
  : World :=
  {| rand_alnum_w := rand_alnum_w W;
     pool_get_w := pool_get_w W;
     load_url_w := load_url_w W;
     wait_for_load_w := wait_for_load_w W;
     stop_w := stop_w W;
     load_about_blank_w := fun _ _ => a;
     strategy_crawl_w := strategy_crawl_w W;
     get_name_w := get_name_w W;
     str_chrome_w := str_chrome_w W;
     get_console_messages_w := get_console_messages_w W;
     get_js_errors_w := get_js_errors_w W |}.

(** The strategy [bad] fails with [e]; the others do what they do in [W]. *)
Definition with_failing_strategy (bad : crawl_strategy → bool) (e : exn)
    (W : World) : World :=
  {| rand_alnum_w := rand_alnum_w W;
     pool_get_w := pool_get_w W;
     load_url_w := load_url_w W;
     wait_for_load_w := wait_for_load_w W;
     stop_w := stop_w W;
     load_about_blank_w := load_about_blank_w W;
     strategy_crawl_w := fun h s c url did =>
       if bad s then ([], Some e) else strategy_crawl_w W h s c url did;
     get_name_w := get_name_w W;
     str_chrome_w := str_chrome_w W;
     get_console_messages_w := get_console_messages_w W;
     get_js_errors_w := get_js_errors_w W |}.

Definition is_dom_dump (s : crawl_strategy) : bool :=
  match s with
  | ChromeCrawlerDOMDump _ => true
  | ChromeCrawlerJS => false
  end.

(** A crawler as [__init__] builds it, with and without a web spider. *)
Definition new_store (web_spider : option nat) : Store :=
  {| self := __init__ (Some 0) None web_spider; chrome_queue := ∅ |}.

(** A crawler whose pool has the idle workers [idle]. *)
Definition store_with_idle (idle : gset nat) : Store :=
  set_pool {| pool_uri_opener := Some 0; pool_max_instances := None;
              _free := idle; _in_use := ∅ |}
           (new_store None).

Definition example_url : URL := "http://example.test/".

(** A store in which the pool has attached a traffic queue to chrome 1. *)
Definition store_in_use : Store :=
  set_chrome_queue 1 (CrawlerHTTPTrafficQueue_new 7 (Some "a1B2c3D4"))
    (set_pool (pool_take 1 (_pool (self (new_store None)))) (new_store None)).

(** ** Runs of the loop *)

(** What [crawl] returns, from what the loop returns. *)
Definition job_result (r : result unit) : result value :=
  match r with
  | Return _ => Return VNone
  | Raise e => Raise e
  end.

(** The calls of the turns that returned, for the strategies [l] in order
    and the workers [ws] they got, with what [wait_for_load] answered. *)
Definition returned_turns (url : URL) (q : nat) (did : debugging_id)
    (l : list crawl_strategy) (ws : list (chrome * bool)) : list event :=
  concat (zip_with (turn_calls url q did) l ws).

(** What the failed call [ev] of the turn of strategy [s] leaves behind: the
    exception [e'] of the turn, its pool calls [pcs] and the strategies
    [inv] it invoked. *)
Definition failed_turn (q : nat) (did : debugging_id) (s : crawl_strategy)
    (ev : event) (e' : exn) (pcs : list event) (inv : list crawl_strategy)
  : Prop :=
  match ev with
  | EvPoolGet _ (inr e) =>
      pcs = [ev] ∧ inv = [] ∧
      e' = (if is_chrome_pool_exception e
            then ChromeCrawlerException
                   ("Failed to get a chrome instance: " +:+ dq +:+ str e +:+ dq)
            else e)
  | EvStrategyCrawl s' c _ _ (Some e) =>
      s' = s ∧ e' = e ∧ inv = [s] ∧
      pcs = [EvPoolGet (CrawlerHTTPTrafficQueue_new q did) (inl c); EvPoolRemove c]
  | EvLoadUrl c _ (Some e) | EvWaitForLoad c (inr e) | EvStop c (Some e) =>
      (∃ msg, e' = wrapped e msg) ∧ inv = [] ∧
      pcs = EvPoolGet (CrawlerHTTPTrafficQueue_new q did) (inl c)
            :: evicted_if_interface_error e c
  | EvLoadAboutBlank c (Some e) =>
      (∃ msg, e' = wrapped e msg) ∧ inv = [s] ∧
      pcs = EvPoolGet (CrawlerHTTPTrafficQueue_new q did) (inl c)
            :: evicted_if_interface_error e c
  | _ => False
  end.

(** Every [wait_for_load] that returned, with [True] or with [False], is
    followed by [stop] on the same chrome instance. *)
Fixpoint stops_after_wait (cs : list event) : bool :=
  match cs with
  | [] => true
  | EvWaitForLoad c (inl _) :: rest =>
      match rest with
      | EvStop c' _ :: _ => bool_decide (c' = c) && stops_after_wait rest
      | _ => false
      end
  | _ :: rest => stops_after_wait rest
  end.

(** The workers whose page did not finish loading. *)
Definition not_loaded (ws : list (chrome * bool)) : list (chrome * bool) :=
  List.filter (fun cb => negb cb.2) ws.

(** ** Further observations *)

(** The exception that reaches the caller of [crawl] for the failed call
    [ev]: the handlers of [pool.get] and of the calls on chrome replace the
    exceptions they name by a [ChromeCrawlerException] with a message of their
    own, everything else passes as it is. *)
Definition surfaced (W : World) (url : URL) (ev : event) : option exn :=
  match ev with
  | EvPoolGet _ (inr e) =>
      Some (if is_chrome_pool_exception e
            then ChromeCrawlerException
                   ("Failed to get a chrome instance: " +:+ dq +:+ str e +:+ dq)
            else e)
  | EvLoadUrl c _ (Some e) =>
      Some (wrapped e ("Failed to load " +:+ url +:+ " using "
                       +:+ str_chrome_w W c +:+ ": " +:+ dq +:+ str e +:+ dq))
  | EvWaitForLoad c (inr e) =>
      Some (wrapped e ("Exception raised while waiting for page load of "
                       +:+ url +:+ " using " +:+ str_chrome_w W c +:+ ": "
                       +:+ dq +:+ str e +:+ dq))
  | EvStop _ (Some e) => Some (wrapped e "Failed to stop chrome browser")
  | EvLoadAboutBlank _ (Some e) =>
      Some (wrapped e "Failed to load about:blank in chrome browser")
  | EvStrategyCrawl _ _ _ _ (Some e) => Some e
  | _ => None
  end.

(** The exceptions that the two handlers of [_crawl] wrote to the log before
    raising them again. *)
Definition failure_line (ev : event) : option exn :=
  match ev with
  | EvDebug (LogInitialLoadFailed _ e _)
  | EvDebug (LogCrawlFailed _ _ e _) => Some e
  | _ => None
  end.

Definition failure_lines (evs : list event) : list exn :=
  omap failure_line evs.

(** How many events satisfy [p]. *)
Definition count_of (p : event → bool) (evs : list event) : nat :=
  length (List.filter p evs).

Definition is_took_strategy (ev : event) : bool :=
  match ev with
  | EvTookSend (TookStrategy _ _ _) => true
  | _ => false
  end.

Definition is_took_get_chrome (ev : event) : bool :=
  match ev with
  | EvTookSend TookGetChrome => true
  | _ => false
  end.

Definition is_took_cleanup (ev : event) : bool :=
  match ev with
  | EvTookSend TookCleanup => true
  | _ => false
  end.

Definition is_strategy_call (ev : event) : bool :=
  match ev with
  | EvStrategyCrawl _ _ _ _ _ => true
  | _ => false
  end.

Definition is_worker_handed_out (ev : event) : bool :=
  match ev with
  | EvPoolGet _ (inl _) => true
  | _ => false
  end.

Definition is_free (ev : event) : bool :=
  match ev with
  | EvPoolFree _ => true
  | _ => false
  end.

(** The timing lines agree with the calls: one line for each strategy that
    was invoked, for each worker that was handed out, and for each worker
    that was given back. *)
Definition timed (evs : list event) : Prop :=
  count_of is_took_strategy evs = count_of is_strategy_call evs ∧
  count_of is_took_get_chrome evs = count_of is_worker_handed_out evs ∧
  count_of is_took_cleanup evs = count_of is_free evs.



(** The calls of [_initial_page_load] when it returns the chrome [c]. *)
Definition loaded_calls (url : URL) (q : nat) (did : debugging_id)
    (c : chrome) (b : bool) : list event :=
  [EvPoolGet (CrawlerHTTPTrafficQueue_new q did) (inl c);
   EvSetDebuggingId c did;
   EvLoadUrl c url None;
   EvWaitForLoad c (inl b);
   EvStop c None].



(** ** Running the programs symbolically *)

Ltac unfold_crawler :=
  cbv beta iota zeta delta
    [crawl _crawl rand_alnum
     _crawl_body _initial_page_load _get_chrome_from_pool _cleanup
     pool_get pool_free pool_remove chrome_set_debugging_id chrome_load_url
     chrome_wait_for_load chrome_stop chrome_load_about_blank strategy_crawl
     chrome_http_traffic_queue_count debug took_send forward finish
     bind try_except ret raise emit ask gets modify].

Ltac crawler_cbn :=
  cbn [fst snd app negb self chrome_queue set_chrome_queue set_pool _pool
       _crawl_strategies _uri_opener _web_spider
       http_traffic_queue queue_debugging_id count CrawlerHTTPTrafficQueue_new
       is_chrome_interface_error is_chrome_pool_exception].

Ltac crawler_simpl :=
  crawler_cbn; repeat (progress (rewrite ?lookup_insert_eq; crawler_cbn)).

(** One case distinction on the next answer of the world. *)
Ltac crawler_step :=
  match goal with
  | |- context [pool_get_w ?W ?h ?q] =>
      destruct (pool_get_w W h q) as [?c|?e] eqn:?Hget
  | |- context [load_url_w ?W ?h ?c ?u] =>
      destruct (load_url_w W h c u) as [?xs [?e|]] eqn:?Hload
  | |- context [wait_for_load_w ?W ?h ?c] =>
      destruct (wait_for_load_w W h c) as [?xs [?b|?e]] eqn:?Hwait
  | |- context [stop_w ?W ?h ?c] =>
      destruct (stop_w W h c) as [?xs [?e|]] eqn:?Hstop
  | |- context [strategy_crawl_w ?W ?h ?s ?c ?u ?d] =>
      destruct (strategy_crawl_w W h s c u d) as [?xs [?e|]] eqn:?Hcrawl
  | |- context [load_about_blank_w ?W ?h ?c] =>
      destruct (load_about_blank_w W h c) as [?xs [?e|]] eqn:?Hblank
  | |- context [is_chrome_interface_error ?e] =>
      destruct (is_chrome_interface_error e) eqn:?Hcie
  | |- context [is_chrome_pool_exception ?e] =>
      destruct (is_chrome_pool_exception e) eqn:?Hcpe
  | |- context [negb ?b] => destruct b
  end; crawler_simpl.

Ltac crawler_run := unfold_crawler; crawler_simpl; repeat crawler_step.

(** ** The calls among the events *)

Lemma calls_app evs evs' : calls (evs ++ evs') = calls evs ++ calls evs'.
Proof. apply List.filter_app. Qed.

Lemma calls_cons ev evs :
  calls (ev :: evs) = if is_call ev then ev :: calls evs else calls evs.
Proof. reflexivity. Qed.

Lemma calls_nil : calls [] = [].
Proof. reflexivity. Qed.

Lemma calls_puts q did xs : calls (map (EvQueuePut q did) xs) = [].
Proof. induction xs; auto. Qed.

Ltac calls_simpl :=
  repeat (progress (rewrite ?calls_app, ?calls_puts, ?calls_cons, ?calls_nil;
                    cbn [is_call app])).

(** ** The loop body follows one of the paths *)

Ltac use_turn T :=
  let H := fresh in
  pose proof T as H;
  unfold wrapped, evicted_if_interface_error in H;
  repeat match goal with
    | Hc : is_chrome_interface_error _ = _ |- _ => rewrite Hc in H
    | Hc : is_chrome_pool_exception _ = _ |- _ => rewrite Hc in H
    end;
  exact H.

Ltac close_turn :=
  match goal with
  | |- turn ?W ?u ?q ?d ?s (Return _)
         (EvPoolGet _ (inl ?c) :: _ :: _ :: EvWaitForLoad _ (inl ?b) :: _) =>
      exact (turn_returns W u q d s c b)
  | |- turn ?W ?u ?q ?d ?s _ [EvPoolGet _ (inr ?e)] =>
      use_turn (turn_get_raises W u q d s e)
  | |- turn ?W ?u ?q ?d ?s _ (_ :: _ :: EvLoadUrl ?c _ (Some ?e) :: _) =>
      use_turn (turn_load_raises W u q d s c e)
  | |- turn ?W ?u ?q ?d ?s _ (_ :: _ :: _ :: EvWaitForLoad ?c (inr ?e) :: _) =>
      use_turn (turn_wait_raises W u q d s c e)
  | |- turn ?W ?u ?q ?d ?s _
         (_ :: _ :: _ :: EvWaitForLoad _ (inl ?b) :: EvStop ?c (Some ?e) :: _) =>
      use_turn (turn_stop_raises W u q d s c b e)
  | |- turn ?W ?u ?q ?d ?s _
         (_ :: _ :: _ :: EvWaitForLoad _ (inl ?b) :: _
          :: EvStrategyCrawl _ ?c _ _ (Some ?e) :: _) =>
      use_turn (turn_strategy_raises W u q d s c b e)
  | |- turn ?W ?u ?q ?d ?s _
         (_ :: _ :: _ :: EvWaitForLoad _ (inl ?b) :: _ :: _
          :: EvLoadAboutBlank ?c (Some ?e) :: _) =>
      use_turn (turn_about_blank_raises W u q d s c b e)
  end.

Lemma _crawl_body_turn W url q did s h σ :
  turn W url q did s (_crawl_body W url q did s h σ).1.1
    (calls (_crawl_body W url q did s h σ).2).
Proof. crawler_run; calls_simpl; close_turn. Qed.

Lemma for_each_turns W url q did l h σ r σ' evs :
  for_each l (_crawl_body W url q did) h σ = (r, σ', evs) →
  turns W url q did l r (calls evs).
Proof.
  revert h σ r σ' evs; induction l as [|s l IH]; intros h σ r σ' evs.
  - intros [= <- <- <-]. constructor.
  - cbn [for_each]. unfold bind.
    pose proof (_crawl_body_turn W url q did s h σ) as T.
    destruct (_crawl_body W url q did s h σ) as [[[[]|e] σ1] evs1];
      cbn [fst snd] in T.
    + destruct (for_each l _ (h ++ evs1) σ1) as [[r2 σ2] evs2] eqn:E.
      intros [= <- <- <-]. apply IH in E.
      rewrite calls_app. inversion T. by constructor.
    + intros [= <- <- <-]. by constructor.
Qed.

Lemma crawl_unfold W url q h σ :
  crawl W url q h σ =
  let id := rand_alnum_w W h 8 in
  let run := for_each (_crawl_strategies (self σ))
               (_crawl_body W url q (Some id)) (h ++ [EvRandAlnum 8 id]) σ in
  (job_result run.1.1, run.1.2, EvRandAlnum 8 id :: run.2).
Proof.
  unfold crawl, _crawl, rand_alnum, bind, ret, ask, emit, gets.
  cbn [app fst snd].
  rewrite !app_nil_r.
  destruct (for_each _ _ _ σ) as [[[[]|e] σ1] evs]; cbn [fst snd job_result];
    by rewrite ?app_nil_r.
Qed.

Lemma crawl_turns W url q h σ r σ' evs :
  crawl W url q h σ = (r, σ', evs) →
  ∃ r0, r = job_result r0 ∧
    turns W url q (Some (rand_alnum_w W h 8)) (_crawl_strategies (self σ)) r0
      (calls evs).
Proof.
  rewrite crawl_unfold. cbn zeta.
  destruct (for_each _ _ _ σ) as [[r0 σ1] evs1] eqn:E.
  intros [= <- <- <-]. exists r0. split; [done|].
  rewrite calls_cons. cbn [is_call]. by eapply for_each_turns.
Qed.

(** ** Runs that return, runs that raise *)

Lemma turns_return_inv W url q did l cs :
  turns W url q did l (Return tt) cs →
  ∃ ws, length ws = length l ∧ cs = returned_turns url q did l ws.
Proof.
  remember (Return tt) as r eqn:Hr. induction 1 as [|s l e cs T|s l cb r cs T IH].
  - by exists [].
  - discriminate.
  - destruct (IH Hr) as (ws & Hlen & ->).
    exists (cb :: ws). split; [cbn; by rewrite Hlen | done].
Qed.

Lemma turns_raise_inv W url q did l e cs :
  turns W url q did l (Raise e) cs →
  ∃ ws s cs_f,
    l !! length ws = Some s ∧
    cs = returned_turns url q did l ws ++ cs_f ∧
    turn W url q did s (Raise e) cs_f.
Proof.
  remember (Raise e) as r eqn:Hr. induction 1 as [|s l e' cs T|s l cb r cs T IH].
  - discriminate.
  - injection Hr as ->. by exists [], s, cs.
  - destruct (IH Hr) as (ws & s' & cs_f & Hs & -> & T').
    exists (cb :: ws), s', cs_f. split_and!; [done| |done].
    unfold returned_turns. cbn [zip_with concat]. by rewrite <- app_assoc.
Qed.

(** ** Observations are made on the calls *)

Lemma filter_filter_implied {A} (f g : A → bool) (l : list A) :
  (∀ x, f x = true → g x = true) →
  List.filter f (List.filter g l) = List.filter f l.
Proof.
  intros Hfg. induction l as [|x l IH]; [done|]. cbn.
  destruct (g x) eqn:Hg; cbn; destruct (f x) eqn:Hf; try congruence.
  apply Hfg in Hf. congruence.
Qed.

Lemma omap_filter_implied {A B} (f : A → option B) (g : A → bool) (l : list A) :
  (∀ x, g x = false → f x = None) →
  omap f (List.filter g l) = omap f l.
Proof.
  intros Hfg. induction l as [|x l IH]; [done|]. cbn.
  destruct (g x) eqn:Hg; cbn; [by rewrite IH|].
  by rewrite (Hfg x Hg).
Qed.

Lemma pool_calls_calls evs : pool_calls (calls evs) = pool_calls evs.
Proof. apply filter_filter_implied. by intros []. Qed.

Lemma failures_calls evs : failures (calls evs) = failures evs.
Proof.
  apply filter_filter_implied. unfold has_raised.
  by intros [| | |? []| | | | |? ? []|? []|? []|? []|? ? ? ? []| |].
Qed.

Lemma invoked_calls evs : invoked (calls evs) = invoked evs.
Proof. apply omap_filter_implied. by intros []. Qed.

Lemma acquired_calls evs : acquired (calls evs) = acquired evs.
Proof. apply omap_filter_implied. by intros []. Qed.

Lemma pool_calls_app evs evs' :
  pool_calls (evs ++ evs') = pool_calls evs ++ pool_calls evs'.
Proof. apply List.filter_app. Qed.

Lemma failures_app evs evs' :
  failures (evs ++ evs') = failures evs ++ failures evs'.
Proof. apply List.filter_app. Qed.

Lemma invoked_app evs evs' : invoked (evs ++ evs') = invoked evs ++ invoked evs'.
Proof. apply omap_app. Qed.

Lemma acquired_app evs evs' :
  acquired (evs ++ evs') = acquired evs ++ acquired evs'.
Proof. apply omap_app. Qed.

Lemma elem_of_failures ev evs :
  ev ∈ failures evs ↔ ev ∈ evs ∧ has_raised ev = true.
Proof.
  unfold failures. rewrite !list_elem_of_In, List.filter_In. tauto.
Qed.

(** ** The turns that returned *)

Lemma failures_returned_turns url q did l ws :
  failures (returned_turns url q did l ws) = [].
Proof.
  unfold returned_turns. revert ws.
  induction l as [|s l IH]; intros [|cb ws]; try done.
  cbn [zip_with concat]. rewrite failures_app, IH. done.
Qed.

Lemma pool_calls_returned_turns url q did l ws :
  length ws ≤ length l →
  pool_calls (returned_turns url q did l ws) = given_back q did ws.*1.
Proof.
  unfold returned_turns, given_back. revert ws.
  induction l as [|s l IH]; intros [|cb ws] Hlen; try done; cbn in Hlen.
  - lia.
  - cbn [zip_with concat]. rewrite pool_calls_app, IH by lia. done.
Qed.

Lemma invoked_returned_turns url q did l ws :
  invoked (returned_turns url q did l ws) = take (length ws) l.
Proof.
  unfold returned_turns. revert ws.
  induction l as [|s l IH]; intros [|cb ws]; try done.
  cbn [zip_with concat]. rewrite invoked_app, IH. done.
Qed.

Lemma acquired_returned_turns url q did l ws :
  length ws ≤ length l →
  acquired (returned_turns url q did l ws) = ws.*1.
Proof.
  unfold returned_turns. revert ws.
  induction l as [|s l IH]; intros [|cb ws] Hlen; try done; cbn in Hlen.
  - lia.
  - cbn [zip_with concat]. rewrite acquired_app, IH by lia. done.
Qed.

(** ** The turn that raised *)

Lemma turn_raise_failed W url q did s e' cs :
  turn W url q did s (Raise e') cs →
  ∃ ev, failures cs = [ev] ∧
        failed_turn q did s ev e' (pool_calls cs) (invoked cs).
Proof.
  inversion 1; subst;
    unfold wrapped, evicted_if_interface_error in *;
    try destruct (is_chrome_interface_error e) eqn:Hcie;
    (eexists; split; [reflexivity|]); cbn;
    unfold wrapped, evicted_if_interface_error; rewrite ?Hcie;
    eauto 10.
Qed.

(** ** The runs of [crawl] *)

Section Job.

Variables (W : World) (url : URL) (q : nat) (h : list event) (σ : Store).

Let did : debugging_id := Some (rand_alnum_w W h 8).
Let l : list crawl_strategy := _crawl_strategies (self σ).

Lemma crawl_return_inv v σ' evs :
  crawl W url q h σ = (Return v, σ', evs) →
  v = VNone ∧
  ∃ ws, length ws = length l ∧ calls evs = returned_turns url q did l ws.
Proof.
  intros Hrun. destruct (crawl_turns _ _ _ _ _ _ _ _ Hrun) as ([[]|e] & Hr & T);
    [|discriminate].
  injection Hr as ->. split; [done|]. by apply turns_return_inv in T.
Qed.

Lemma crawl_raise_inv e σ' evs :
  crawl W url q h σ = (Raise e, σ', evs) →
  ∃ ws s cs_f,
    l !! length ws = Some s ∧
    calls evs = returned_turns url q did l ws ++ cs_f ∧
    turn W url q did s (Raise e) cs_f.
Proof.
  intros Hrun. destruct (crawl_turns _ _ _ _ _ _ _ _ Hrun) as ([[]|e'] & Hr & T);
    [discriminate|].
  injection Hr as ->. by apply turns_raise_inv in T.
Qed.

Lemma crawl_return_no_failure v σ' evs :
  crawl W url q h σ = (Return v, σ', evs) → failures evs = [].
Proof.
  intros (_ & ws & _ & Hcs)%crawl_return_inv.
  by rewrite <- failures_calls, Hcs, failures_returned_turns.
Qed.

(** A failed job has one failed call, in the turn after those that
    returned. *)
Lemma crawl_raise_failed e σ' evs :
  crawl W url q h σ = (Raise e, σ', evs) →
  ∃ (ws : list chrome) s ev pcs inv,
    l !! length ws = Some s ∧
    failures evs = [ev] ∧
    pool_calls evs = given_back q did ws ++ pcs ∧
    invoked evs = take (length ws) l ++ inv ∧
    failed_turn q did s ev e pcs inv.
Proof.
  intros (ws & s & cs_f & Hs & Hcs & T)%crawl_raise_inv.
  destruct (turn_raise_failed _ _ _ _ _ _ _ T) as (ev & Hev & Hf).
  pose proof (lookup_lt_Some _ _ _ Hs) as Hlt.
  exists ws.*1, s, ev, (pool_calls cs_f), (invoked cs_f).
  rewrite length_fmap. split_and!; [done| | | |done].
  - by rewrite <- failures_calls, Hcs, failures_app, failures_returned_turns.
  - rewrite <- pool_calls_calls, Hcs, pool_calls_app.
    by rewrite pool_calls_returned_turns by lia.
  - by rewrite <- invoked_calls, Hcs, invoked_app, invoked_returned_turns.
Qed.

(** The failed call [ev] of a job decides how the job ends. *)
Lemma crawl_failed_call r σ' evs ev :
  crawl W url q h σ = (r, σ', evs) →
  ev ∈ evs → has_raised ev = true →
  ∃ e (ws : list chrome) s pcs inv,
    r = Raise e ∧
    l !! length ws = Some s ∧
    pool_calls evs = given_back q did ws ++ pcs ∧
    invoked evs = take (length ws) l ++ inv ∧
    failed_turn q did s ev e pcs inv.
Proof.
  intros Hrun Hin Hraised.
  assert (ev ∈ failures evs) as Hev by by apply elem_of_failures.
  destruct r as [v|e].
  - rewrite (crawl_return_no_failure _ _ _ Hrun) in Hev. by apply elem_of_nil in Hev.
  - destruct (crawl_raise_failed _ _ _ Hrun)
      as (ws & s & ev' & pcs & inv & Hs & Hf & Hp & Hi & Ht).
    rewrite Hf in Hev. apply list_elem_of_singleton in Hev as ->.
    by exists e, ws, s, pcs, inv.
Qed.

End Job.

(** ** The pool after a run *)

Lemma replay_app evs evs' p : replay (evs ++ evs') p = replay evs' (replay evs p).
Proof. apply fold_left_app. Qed.

Lemma replay_cons ev evs p : replay (ev :: evs) p = replay evs (replay_call p ev).
Proof. reflexivity. Qed.

Lemma replay_nil p : replay [] p = p.
Proof. reflexivity. Qed.

Lemma replay_puts q did xs p : replay (map (EvQueuePut q did) xs) p = p.
Proof. induction xs; auto. Qed.

Ltac replay_simpl :=
  repeat (progress (rewrite ?replay_app, ?replay_puts, ?replay_cons, ?replay_nil;
                    cbn [replay_call])).

Lemma replay_pool_calls evs p : replay (pool_calls evs) p = replay evs p.
Proof.
  revert p; induction evs as [|ev evs IH]; intros p; [done|].
  unfold pool_calls in *. cbn [List.filter].
  destruct (is_pool_call ev) eqn:Hev; rewrite !replay_cons, ?IH; [done|].
  by destruct ev.
Qed.

Lemma _crawl_body_pool W url q did s h σ :
  _pool (self (_crawl_body W url q did s h σ).1.2)
  = replay (_crawl_body W url q did s h σ).2 (_pool (self σ)).
Proof. crawler_run; by replay_simpl. Qed.

Lemma for_each_pool W url q did l h σ :
  _pool (self (for_each l (_crawl_body W url q did) h σ).1.2)
  = replay (for_each l (_crawl_body W url q did) h σ).2 (_pool (self σ)).
Proof.
  revert h σ; induction l as [|s l IH]; intros h σ; [done|].
  cbn [for_each]. unfold bind.
  pose proof (_crawl_body_pool W url q did s h σ) as Hs.
  destruct (_crawl_body W url q did s h σ) as [[[[]|e] σ1] evs1];
    cbn [fst snd] in Hs |- *; [|done].
  specialize (IH (h ++ evs1) σ1).
  destruct (for_each l _ (h ++ evs1) σ1) as [[r2 σ2] evs2]; cbn [fst snd] in *.
  by rewrite replay_app, <- Hs.
Qed.

Lemma crawl_pool W url q h σ r σ' evs :
  crawl W url q h σ = (r, σ', evs) →
  _pool (self σ') = replay (pool_calls evs) (_pool (self σ)).
Proof.
  rewrite crawl_unfold. cbn zeta. intros [= <- <- <-].
  by rewrite replay_pool_calls, replay_cons, for_each_pool.
Qed.

(** A worker that is given back is idle, and stays so through turns that
    return. *)
Lemma replay_given_back_idle q did ws p c :
  c ∈ _free p → c ∉ _in_use p →
  c ∈ _free (replay (given_back q did ws) p) ∧
  c ∉ _in_use (replay (given_back q did ws) p).
Proof.
  revert p; induction ws as [|c0 ws IH]; intros p Hfree Huse; [done|].
  cbn [given_back flat_map app]. rewrite !replay_cons. cbn [replay_call].
  apply IH; cbn [_free _in_use pool_give_back pool_take];
    destruct (decide (c = c0)); set_solver.
Qed.

Lemma replay_given_back q did ws p c :
  c ∈ ws →
  c ∈ _free (replay (given_back q did ws) p) ∧
  c ∉ _in_use (replay (given_back q did ws) p).
Proof.
  revert p; induction ws as [|c0 ws IH]; intros p Hin.
  - by apply elem_of_nil in Hin.
  - cbn [given_back flat_map app]. rewrite !replay_cons. cbn [replay_call].
    apply elem_of_cons in Hin as [->|Hin]; [|by apply IH].
    apply replay_given_back_idle; cbn [_free _in_use pool_give_back pool_take];
      set_solver.
Qed.

(** ** The scenarios of the specification, run *)

(** Scenario C: [wait_for_load] times out, [stop] succeeds; [crawl] returns
    and the worker is idle again. *)
Example scenario_slow_page :
  let run := crawl slow_page_world example_url 7 [] (new_store None) in
  run.1.1 = Return VNone ∧
  pool_calls run.2
  = [EvPoolGet (CrawlerHTTPTrafficQueue_new 7 (Some "a1B2c3D4")) (inl 1);
     EvPoolFree 1] ∧
  elements (_free (_pool (self run.1.2))) = [1] ∧
  forwarded run.2
  = [(7, Some "a1B2c3D4", "GET /"); (7, Some "a1B2c3D4", "GET /app.js")].
Proof. by vm_compute. Qed.

(** Scenario B: [load_url] raises a chrome interface timeout; [crawl] fails
    with a [ChromeCrawlerException] and the worker is gone from the pool. *)
Example scenario_load_timeout :
  let W := with_load_url ([], Some timeout_error) slow_page_world in
  let run := crawl W example_url 7 [] (new_store None) in
  is_chrome_crawler_exception
    (match run.1.1 with Return _ => timeout_error | Raise e => e end) = true ∧
  pool_calls run.2
  = [EvPoolGet (CrawlerHTTPTrafficQueue_new 7 (Some "a1B2c3D4")) (inl 1);
     EvPoolRemove 1] ∧
  elements (_free (_pool (self run.1.2))) = [] ∧
  elements (_in_use (_pool (self run.1.2))) = [].
Proof. by vm_compute. Qed.

(** Scenario D: the second strategy fails after the first one forwarded
    entries; [crawl] fails, the entries stay in the queue, the first worker
    is idle and the second one is evicted. *)
Example scenario_second_strategy_fails :
  let W := with_failing_strategy is_dom_dump socket_error slow_page_world in
  let run := crawl W example_url 7 [] (new_store (Some 5)) in
  run.1.1 = Raise socket_error ∧
  forwarded run.2
  = [(7, Some "a1B2c3D4", "GET /"); (7, Some "a1B2c3D4", "GET /app.js");
     (7, Some "a1B2c3D4", "GET /")] ∧
  elements (_free (_pool (self run.1.2))) = [1] ∧
  elements (_in_use (_pool (self run.1.2))) = [].
Proof. by vm_compute. Qed.

(** Scenario E: cleanup fails after the strategy succeeded; [crawl] fails
    and the worker is evicted. *)
Example scenario_cleanup_fails :
  let W := with_load_about_blank ([], Some timeout_error) slow_page_world in
  let run := crawl W example_url 7 [] (new_store None) in
  run.1.1
  = Raise (ChromeCrawlerException "Failed to load about:blank in chrome browser") ∧
  invoked run.2 = [ChromeCrawlerJS] ∧
  failures run.2 = [EvLoadAboutBlank 1 (Some timeout_error)] ∧
  elements (_free (_pool (self run.1.2))) = [] ∧
  elements (_in_use (_pool (self run.1.2))) = [].
Proof. by vm_compute. Qed.

(** ** One worker per strategy *)

(** C1, as the specification states it, fails: with a web spider the crawler
    has two strategies, and a job that returns has taken two workers from the
    pool and loaded the page twice, so its calls are not those of a job served
    by one worker. *)
Lemma crawl_two_strategies_two_workers :
  let run := crawl slow_page_world example_url 7 [] (new_store (Some 5)) in
  run.1.1 = Return VNone ∧
  acquired run.2 = [1; 2] ∧
  ¬ one_worker_job example_url 7 (Some "a1B2c3D4")
      (_crawl_strategies (self (new_store (Some 5)))) (calls run.2).
Proof.
  split_and!; [by vm_compute..|].
  intros (c & b & blank & fin & _ & Hcs). vm_compute in Hcs. discriminate Hcs.
Qed.

(** C1, amended: every call to [crawl] takes one worker from the pool for
    each configured strategy, in declared order.  In each turn the worker is
    acquired, loaded, waited for and stopped once, that strategy is invoked on
    that worker, and cleanup runs once and ends in a single free of that
    worker.  A call that returns has done so for every strategy; a call that
    raises has done so for the strategies before the one in whose turn a call
    raised. *)
Theorem crawl_one_worker_per_strategy W url q h σ r σ' evs :
  crawl W url q h σ = (r, σ', evs) →
  let did := Some (rand_alnum_w W h 8) in
  let l := _crawl_strategies (self σ) in
  ∃ ws : list (chrome * bool),
    acquired (returned_turns url q did l ws) = ws.*1 ∧
    invoked (returned_turns url q did l ws) = take (length ws) l ∧
    match r with
    | Return _ =>
        length ws = length l ∧ calls evs = returned_turns url q did l ws
    | Raise e =>
        ∃ s cs_f,
          l !! length ws = Some s ∧
          calls evs = returned_turns url q did l ws ++ cs_f ∧
          turn W url q did s (Raise e) cs_f
    end.
Proof.
  intros Hrun did l. destruct r as [v|e].
  - destruct (crawl_return_inv _ _ _ _ _ _ _ _ Hrun) as (_ & ws & Hlen & Hcs).
    exists ws. split_and!; [|apply invoked_returned_turns|done..].
    apply acquired_returned_turns. fold l in Hlen. lia.
  - destruct (crawl_raise_inv _ _ _ _ _ _ _ _ Hrun) as (ws & s & cs_f & Hs & Hcs & T).
    exists ws. split_and!; [|apply invoked_returned_turns|by exists s, cs_f].
    apply acquired_returned_turns. apply lookup_lt_Some in Hs. fold l in Hs. lia.
Qed.

Lemma crawl_one_worker_per_strategy_witness :
  let run := crawl slow_page_world example_url 7 [] (new_store (Some 5)) in
  let did := Some "a1B2c3D4" in
  let l := [ChromeCrawlerJS; ChromeCrawlerDOMDump 5] in
  ∃ ws : list (chrome * bool),
    acquired (returned_turns example_url 7 did l ws) = ws.*1 ∧
    invoked (returned_turns example_url 7 did l ws) = take (length ws) l ∧
    length ws = length l ∧ calls run.2 = returned_turns example_url 7 did l ws.
Proof.
  intros run did l.
  apply (crawl_one_worker_per_strategy slow_page_world example_url 7 []
           (new_store (Some 5)) (Return VNone) run.1.2 run.2).
  vm_compute. reflexivity.
Defined.

(** ** Freed, evicted, or neither *)

(** C2, as the specification states it, fails: when [load_url] raises an
    exception that is not a chrome interface error, the job fails and the
    worker it borrowed is neither returned to the pool nor removed from it. *)
Lemma crawl_load_error_leaks_worker :
  let run := crawl (with_load_url ([], Some socket_error) slow_page_world)
               example_url 7 [] (new_store None) in
  run.1.1 = Raise socket_error ∧
  acquired run.2 = [1] ∧ frees 1 run.2 = 0 ∧ removes 1 run.2 = 0 ∧
  ¬ freed_or_evicted run.1.1 run.2.
Proof.
  split_and!; [by vm_compute..|].
  intros Hfate. specialize (Hfate 1). vm_compute in Hfate.
  discriminate Hfate. by left.
Qed.

(** C2, amended: when the job returns, each worker that was borrowed has
    been returned to the idle set exactly once, in the turn that borrowed it,
    and none was evicted.  When the job fails because a strategy raised, or
    because [load_url], [wait_for_load], [stop] or [load_about_blank] raised a
    chrome interface error or timeout, the worker of the failing call has been
    removed from the pool, without being freed in that turn, before the error
    reaches the caller. *)
Theorem crawl_frees_or_evicts W url q h σ r σ' evs :
  crawl W url q h σ = (r, σ', evs) →
  let did := Some (rand_alnum_w W h 8) in
  let queue := CrawlerHTTPTrafficQueue_new q did in
  (∀ v, r = Return v →
     ∃ ws : list chrome,
       length ws = length (_crawl_strategies (self σ)) ∧
       pool_calls evs = given_back q did ws ∧
       ∀ c, c ∈ ws →
            c ∈ _free (_pool (self σ')) ∧ c ∉ _in_use (_pool (self σ'))) ∧
  (∀ ev, ev ∈ evs → evicts ev = true →
     ∃ e (ws : list chrome) c,
       r = Raise e ∧ called_on ev = Some c ∧
       pool_calls evs
       = given_back q did ws ++ [EvPoolGet queue (inl c); EvPoolRemove c] ∧
       (c ∉ _free (_pool (self σ'))) ∧ (c ∉ _in_use (_pool (self σ')))).
Proof.
  intros Hrun did queue. pose proof (crawl_pool _ _ _ _ _ _ _ _ Hrun) as Hpool.
  split.
  - intros v ->.
    destruct (crawl_return_inv _ _ _ _ _ _ _ _ Hrun) as (_ & ws & Hlen & Hcs).
    assert (pool_calls evs = given_back q did ws.*1) as Hp.
    { rewrite <- pool_calls_calls, Hcs. apply pool_calls_returned_turns. lia. }
    exists ws.*1. rewrite length_fmap. split_and!; [done..|].
    intros c Hc. rewrite Hpool, Hp. by apply replay_given_back.
  - intros ev Hev Hevicts.
    assert (has_raised ev = true) as Hraised.
    { by destruct ev as [| | |? []| | | | |? ? []|? []|? []|? []|? ? ? ? []| |]. }
    destruct (crawl_failed_call _ _ _ _ _ _ _ _ _ Hrun Hev Hraised)
      as (e & ws & s & pcs & inv & -> & Hs & Hp & Hi & Ht).
    assert (∃ c, called_on ev = Some c ∧
              pcs = [EvPoolGet queue (inl c); EvPoolRemove c]) as (c & Hc & ->).
    { destruct ev as [| | |? []| | | | |? ? [e0|]|? [|e0]|? [e0|]|? [e0|]|? ? ? ? []| |];
        try done; cbn in Hevicts, Ht |- *;
        unfold evicted_if_interface_error in Ht; rewrite ?Hevicts in Ht;
        naive_solver. }
    exists e, ws, c. split_and!; [done..| |].
    + rewrite Hpool, Hp, replay_app. cbn. set_solver.
    + rewrite Hpool, Hp, replay_app. cbn. set_solver.
Qed.

Lemma crawl_frees_or_evicts_witness :
  let W := with_load_about_blank ([], Some timeout_error) slow_page_world in
  let run := crawl W example_url 7 [] (new_store None) in
  ∃ e (ws : list chrome) c,
    run.1.1 = Raise e ∧
    called_on (EvLoadAboutBlank 1 (Some timeout_error)) = Some c ∧
    pool_calls run.2
    = given_back 7 (Some "a1B2c3D4") ws
      ++ [EvPoolGet (CrawlerHTTPTrafficQueue_new 7 (Some "a1B2c3D4")) (inl c);
          EvPoolRemove c] ∧
    (c ∉ _free (_pool (self run.1.2))) ∧ (c ∉ _in_use (_pool (self run.1.2))).
Proof.
  intros W run.
  refine (proj2 (crawl_frees_or_evicts W example_url 7 [] (new_store None)
                   run.1.1 run.1.2 run.2 _) _ _ _).
  - vm_compute. reflexivity.
  - vm_compute. repeat first [left | right].
  - reflexivity.
Defined.

(** ** A strategy that fails *)

(** C3, as the specification states it, fails: the exception of a strategy
    reaches the caller as it is, not as a [ChromeCrawlerException]. *)
Lemma crawl_strategy_error_not_wrapped :
  let W := with_failing_strategy (fun _ => true) socket_error slow_page_world in
  let run := crawl W example_url 7 [] (new_store None) in
  run.1.1 = Raise socket_error ∧
  is_chrome_crawler_exception socket_error = false ∧
  ¬ strategy_failure_is_wrapped run.1.1 run.2.
Proof.
  split_and!; [by vm_compute..|].
  intros Hwrapped.
  destruct (Hwrapped ChromeCrawlerJS 1 example_url (Some "a1B2c3D4") socket_error)
    as [msg Hmsg].
  - vm_compute. repeat first [left | right].
  - vm_compute in Hmsg. discriminate Hmsg.
Qed.

(** The job in which the [crawl] call of a strategy raised. *)
Lemma crawl_strategy_failure W url q h σ r σ' evs s c u d e :
  crawl W url q h σ = (r, σ', evs) →
  EvStrategyCrawl s c u d (Some e) ∈ evs →
  r = Raise e ∧
  ∃ ws : list chrome,
    _crawl_strategies (self σ) !! length ws = Some s ∧
    pool_calls evs
    = given_back q (Some (rand_alnum_w W h 8)) ws
      ++ [EvPoolGet (CrawlerHTTPTrafficQueue_new q (Some (rand_alnum_w W h 8)))
            (inl c);
          EvPoolRemove c] ∧
    invoked evs = take (S (length ws)) (_crawl_strategies (self σ)).
Proof.
  intros Hrun Hev.
  destruct (crawl_failed_call _ _ _ _ _ _ _ _ _ Hrun Hev eq_refl)
    as (e' & ws & s' & pcs & inv & -> & Hs & Hp & Hi & Ht).
  cbn in Ht. destruct Ht as (<- & -> & -> & ->).
  split; [done|]. exists ws. split_and!; [done..|].
  by rewrite (take_S_r _ _ _ Hs).
Qed.

(** C3, amended: when the [crawl] call of a strategy raises any exception,
    the worker it ran on is removed from the pool and not freed, the
    strategies after it are not invoked, and the exception is raised again to
    the caller unchanged; it is not wrapped. *)
Theorem strategy_failure_evicts_and_reraises W url q h σ r σ' evs s c u d e :
  crawl W url q h σ = (r, σ', evs) →
  EvStrategyCrawl s c u d (Some e) ∈ evs →
  let did := Some (rand_alnum_w W h 8) in
  let l := _crawl_strategies (self σ) in
  r = Raise e ∧
  ∃ ws : list chrome,
    l !! length ws = Some s ∧
    pool_calls evs
    = given_back q did ws
      ++ [EvPoolGet (CrawlerHTTPTrafficQueue_new q did) (inl c); EvPoolRemove c] ∧
    invoked evs = take (S (length ws)) l.
Proof. intros Hrun Hev did l. by eapply crawl_strategy_failure. Qed.

Lemma strategy_failure_evicts_and_reraises_witness :
  let W := with_failing_strategy is_dom_dump socket_error slow_page_world in
  let run := crawl W example_url 7 [] (new_store (Some 5)) in
  let did := Some "a1B2c3D4" in
  run.1.1 = Raise socket_error ∧
  ∃ ws : list chrome,
    [ChromeCrawlerJS; ChromeCrawlerDOMDump 5] !! length ws
    = Some (ChromeCrawlerDOMDump 5) ∧
    pool_calls run.2
    = given_back 7 did ws
      ++ [EvPoolGet (CrawlerHTTPTrafficQueue_new 7 did) (inl 2); EvPoolRemove 2] ∧
    invoked run.2 = take (S (length ws)) [ChromeCrawlerJS; ChromeCrawlerDOMDump 5].
Proof.
  intros W run did.
  apply (strategy_failure_evicts_and_reraises W example_url 7 []
           (new_store (Some 5)) run.1.1 run.1.2 run.2
           (ChromeCrawlerDOMDump 5) 2 example_url did socket_error).
  - vm_compute. reflexivity.
  - vm_compute. repeat first [left | right].
Defined.

(** ** Which failures evict *)

(** C9: a strategy that raises any exception has its worker evicted before
    the exception is raised again.  For [load_url], [wait_for_load], [stop] and
    [load_about_blank], only a chrome interface exception or timeout is caught:
    the worker is evicted and a [ChromeCrawlerException] is raised.  Any other
    exception of these calls reaches the caller with the worker neither freed
    nor removed: its acquisition is the last call made on the pool, and the
    pool still has it in use. *)
Theorem eviction_depends_on_phase W url q h σ r σ' evs :
  crawl W url q h σ = (r, σ', evs) →
  let did := Some (rand_alnum_w W h 8) in
  let queue := CrawlerHTTPTrafficQueue_new q did in
  (∀ s c u d e,
     EvStrategyCrawl s c u d (Some e) ∈ evs →
     r = Raise e ∧
     ∃ ws : list chrome,
       pool_calls evs
       = given_back q did ws ++ [EvPoolGet queue (inl c); EvPoolRemove c]) ∧
  (∀ ev c e,
     ev ∈ evs → interface_call_failure ev = Some (c, e) →
     if is_chrome_interface_error e
     then (∃ msg, r = Raise (ChromeCrawlerException msg)) ∧
          ∃ ws : list chrome,
            pool_calls evs
            = given_back q did ws ++ [EvPoolGet queue (inl c); EvPoolRemove c]
     else r = Raise e ∧
          (∃ ws : list chrome,
             pool_calls evs = given_back q did ws ++ [EvPoolGet queue (inl c)]) ∧
          c ∈ _in_use (_pool (self σ')) ∧ (c ∉ _free (_pool (self σ')))).
Proof.
  intros Hrun did queue. split.
  - intros s c u d e Hev.
    destruct (crawl_strategy_failure _ _ _ _ _ _ _ _ _ _ _ _ _ Hrun Hev)
      as (-> & ws & _ & Hp & _).
    split; [done|]. by exists ws.
  - intros ev c e Hev Hfail.
    assert (has_raised ev = true) as Hraised.
    { by destruct ev as [| | |? []| | | | |? ? []|? []|? []|? []|? ? ? ? []| |]. }
    destruct (crawl_failed_call _ _ _ _ _ _ _ _ _ Hrun Hev Hraised)
      as (e' & ws & s & pcs & inv & -> & Hs & Hp & Hi & Ht).
    assert ((∃ msg, e' = wrapped e msg) ∧
            pcs = EvPoolGet queue (inl c) :: evicted_if_interface_error e c)
      as ([msg ->] & ->).
    { destruct ev as [| | |? []| | | | |? ? [e0|]|? [|e0]|? [e0|]|? [e0|]|? ? ? ? []| |];
        try done; cbn in Hfail, Ht; naive_solver. }
    pose proof (crawl_pool _ _ _ _ _ _ _ _ Hrun) as Hpool.
    unfold wrapped, evicted_if_interface_error in *.
    destruct (is_chrome_interface_error e).
    + split; [by exists msg|by exists ws].
    + split_and!; [done|by exists ws|..];
        rewrite Hpool, Hp, replay_app; cbn; set_solver.
Qed.

Lemma eviction_depends_on_phase_witness :
  let W := with_load_url ([], Some socket_error) slow_page_world in
  let run := crawl W example_url 7 [] (new_store None) in
  let queue := CrawlerHTTPTrafficQueue_new 7 (Some "a1B2c3D4") in
  run.1.1 = Raise socket_error ∧
  (∃ ws : list chrome,
     pool_calls run.2
     = given_back 7 (Some "a1B2c3D4") ws ++ [EvPoolGet queue (inl 1)]) ∧
  1 ∈ _in_use (_pool (self run.1.2)) ∧ (1 ∉ _free (_pool (self run.1.2))).
Proof.
  intros W run queue.
  refine (proj2 (eviction_depends_on_phase W example_url 7 [] (new_store None)
                   run.1.1 run.1.2 run.2 _)
            (EvLoadUrl 1 example_url (Some socket_error)) 1 socket_error _ _).
  - vm_compute. reflexivity.
  - vm_compute. repeat first [left | right].
  - reflexivity.
Defined.

(** ** A page that does not finish loading *)

Lemma not_loaded_lines_app evs evs' :
  not_loaded_lines (evs ++ evs') = not_loaded_lines evs + not_loaded_lines evs'.
Proof. unfold not_loaded_lines. by rewrite List.filter_app, length_app. Qed.

Lemma not_loaded_lines_puts q did xs :
  not_loaded_lines (map (EvQueuePut q did) xs) = 0.
Proof. induction xs; auto. Qed.

Lemma not_loaded_lines_cons ev evs :
  not_loaded_lines (ev :: evs)
  = (if is_not_loaded_line ev then 1 else 0) + not_loaded_lines evs.
Proof. unfold not_loaded_lines. cbn. by destruct (is_not_loaded_line ev). Qed.

Lemma not_loaded_lines_nil : not_loaded_lines [] = 0.
Proof. reflexivity. Qed.

Lemma _crawl_body_not_loaded W url q did s h σ σ' evs :
  _crawl_body W url q did s h σ = (Return tt, σ', evs) →
  ∃ c b, calls evs = turn_calls url q did s (c, b) ∧
         not_loaded_lines evs = length (not_loaded [(c, b)]).
Proof.
  crawler_run; intros [= <- <-];
    match goal with
    | |- context [EvWaitForLoad ?c (inl ?b)] => exists c, b
    end;
    (split; [by calls_simpl|]);
    repeat (progress (rewrite ?not_loaded_lines_app, ?not_loaded_lines_puts,
                        ?not_loaded_lines_cons, ?not_loaded_lines_nil;
                      cbn [is_not_loaded_line]));
    done.
Qed.

Lemma for_each_not_loaded W url q did l h σ σ' evs :
  for_each l (_crawl_body W url q did) h σ = (Return tt, σ', evs) →
  ∃ ws, length ws = length l ∧
        calls evs = returned_turns url q did l ws ∧
        not_loaded_lines evs = length (not_loaded ws).
Proof.
  revert h σ σ' evs; induction l as [|s l IH]; intros h σ σ' evs.
  - intros [= <- <-]. by exists [].
  - cbn [for_each]. unfold bind.
    destruct (_crawl_body W url q did s h σ) as [[[[]|e] σ1] evs1] eqn:Hs; [|done].
    destruct (for_each l _ (h ++ evs1) σ1) as [[r2 σ2] evs2] eqn:Hl.
    intros [= -> <- <-].
    destruct (_crawl_body_not_loaded _ _ _ _ _ _ _ _ _ Hs) as (c & b & Hc & Hn).
    destruct (IH _ _ _ _ Hl) as (ws & Hlen & Hcs & Hns).
    exists ((c, b) :: ws). split_and!.
    + cbn. by rewrite Hlen.
    + rewrite calls_app, Hc, Hcs. done.
    + rewrite not_loaded_lines_app, Hn, Hns. unfold not_loaded. cbn.
      by destruct b.
Qed.

Lemma stops_after_wait_turn_calls url q did s cb cs :
  stops_after_wait (turn_calls url q did s cb ++ cs) = stops_after_wait cs.
Proof. cbn. by rewrite bool_decide_eq_true_2. Qed.

Lemma stops_after_wait_turn W url q did s e cs :
  turn W url q did s (Raise e) cs → stops_after_wait cs = true.
Proof.
  inversion 1; subst; unfold evicted_if_interface_error;
    try destruct (is_chrome_interface_error _); cbn;
    by rewrite ?bool_decide_eq_true_2.
Qed.

Lemma stops_after_wait_turns W url q did l r cs :
  turns W url q did l r cs → stops_after_wait cs = true.
Proof.
  induction 1 as [|s l e cs T|s l cb r cs T IH].
  - done.
  - by eapply stops_after_wait_turn.
  - by rewrite stops_after_wait_turn_calls.
Qed.

(** C4: a [wait_for_load] that answers [False] does not fail the job.  In
    every job, each [wait_for_load] that returned is followed by [stop] on the
    same chrome instance.  If no call of the job raises, the job returns,
    whatever [wait_for_load] answered: each turn went on to [stop], the
    strategy and cleanup, each worker was returned to the pool, and one line
    was logged for each page that did not finish loading. *)
Theorem wait_for_load_timeout_is_not_fatal W url q h σ r σ' evs :
  crawl W url q h σ = (r, σ', evs) →
  let did := Some (rand_alnum_w W h 8) in
  let l := _crawl_strategies (self σ) in
  stops_after_wait (calls evs) = true ∧
  (failures evs = [] →
   r = Return VNone ∧
   ∃ ws : list (chrome * bool),
     length ws = length l ∧
     calls evs = returned_turns url q did l ws ∧
     not_loaded_lines evs = length (not_loaded ws) ∧
     pool_calls evs = given_back q did ws.*1).
Proof.
  intros Hrun did l. split.
  - destruct (crawl_turns _ _ _ _ _ _ _ _ Hrun) as (r0 & _ & T).
    by eapply stops_after_wait_turns.
  - intros Hnone. destruct r as [v|e].
    + revert Hrun. rewrite crawl_unfold. cbn zeta.
      destruct (for_each _ _ _ σ) as [[[[]|e] σ1] evs1] eqn:Hl; [|done].
      intros [= <- <- <-]. split; [done|].
      destruct (for_each_not_loaded _ _ _ _ _ _ _ _ _ Hl) as (ws & Hlen & Hcs & Hn).
      exists ws. split_and!; [done| | |].
      * by rewrite calls_cons.
      * done.
      * rewrite <- pool_calls_calls, calls_cons. cbn [is_call]. rewrite Hcs.
        apply pool_calls_returned_turns. subst l. lia.
    + destruct (crawl_raise_failed _ _ _ _ _ _ _ _ Hrun)
        as (ws & s & ev & pcs & inv & _ & Hf & _).
      congruence.
Qed.

Lemma wait_for_load_timeout_is_not_fatal_witness :
  let run := crawl slow_page_world example_url 7 [] (new_store (Some 5)) in
  let did := Some "a1B2c3D4" in
  let l := [ChromeCrawlerJS; ChromeCrawlerDOMDump 5] in
  run.1.1 = Return VNone ∧
  ∃ ws : list (chrome * bool),
    length ws = length l ∧
    calls run.2 = returned_turns example_url 7 did l ws ∧
    not_loaded_lines run.2 = length (not_loaded ws) ∧
    pool_calls run.2 = given_back 7 did ws.*1.
Proof.
  intros run did l.
  refine (proj2 (wait_for_load_timeout_is_not_fatal slow_page_world example_url
                   7 [] (new_store (Some 5)) run.1.1 run.1.2 run.2 _) _).
  - vm_compute. reflexivity.
  - vm_compute. reflexivity.
Defined.

(** ** One correlation id *)

Lemma of_job_puts q did xs : Forall (of_job q did) (map (EvQueuePut q did) xs).
Proof. induction xs; by constructor. Qed.

Ltac of_job_simpl :=
  repeat first
    [ apply Forall_nil_2
    | apply Forall_cons_2; [by split|]
    | apply Forall_app_2
    | apply of_job_puts ].

Lemma _crawl_body_of_job W url q did s h σ :
  Forall (of_job q did) (_crawl_body W url q did s h σ).2.
Proof. crawler_run; of_job_simpl. Qed.

Lemma for_each_of_job W url q did l h σ :
  Forall (of_job q did) (for_each l (_crawl_body W url q did) h σ).2.
Proof.
  revert h σ; induction l as [|s l IH]; intros h σ; [by constructor|].
  cbn [for_each]. unfold bind.
  pose proof (_crawl_body_of_job W url q did s h σ) as Hs.
  destruct (_crawl_body W url q did s h σ) as [[[[]|e] σ1] evs1];
    cbn [fst snd] in Hs |- *; [|done].
  specialize (IH (h ++ evs1) σ1).
  destruct (for_each l _ (h ++ evs1) σ1) as [[r2 σ2] evs2]; cbn [fst snd] in *.
  by apply Forall_app_2.
Qed.

Lemma of_job_generated q did evs : Forall (of_job q did) evs → generated evs = [].
Proof.
  induction 1 as [|ev evs [_ Hev] _ IH]; [done|].
  unfold generated in *. by destruct ev.
Qed.

Lemma of_job_forwarded q did evs :
  Forall (of_job q did) evs →
  Forall (fun entry => entry.1 = (q, did)) (forwarded evs).
Proof.
  induction 1 as [|ev evs [Hdid Hev] _ IH]; [by constructor|].
  unfold forwarded in *. cbn.
  destruct ev; try done. constructor; [|done].
  cbn in Hdid, Hev |- *. congruence.
Qed.

(** C7: a call to [crawl] generates one correlation id, with [rand_alnum(8)],
    and nothing else generates one.  Every log line, the traffic queue bound at
    each [get], the debugging id set on each chrome instance and every
    strategy invocation carry that id, and every entry forwarded to the
    caller's queue is tagged with it.  The id is alphanumeric and of length 8
    whenever [rand_alnum] answers as its name says. *)
Theorem crawl_one_correlation_id W url q h σ r σ' evs :
  crawl W url q h σ = (r, σ', evs) →
  alnum_of_length 8 (rand_alnum_w W h 8) →
  ∃ id : string,
    alnum_of_length 8 id ∧
    generated evs = [(8, id)] ∧
    Forall (carries (Some id)) evs ∧
    Forall (fun entry => entry.1 = (q, Some id)) (forwarded evs).
Proof.
  rewrite crawl_unfold. cbn zeta. intros [= <- <- <-] Halnum.
  exists (rand_alnum_w W h 8).
  pose proof (for_each_of_job W url q (Some (rand_alnum_w W h 8))
                (_crawl_strategies (self σ))
                (h ++ [EvRandAlnum 8 (rand_alnum_w W h 8)]) σ) as Hjob.
  split_and!.
  - done.
  - change (generated (EvRandAlnum 8 (rand_alnum_w W h 8) :: ?evs))
      with ((8, rand_alnum_w W h 8) :: generated evs).
    by rewrite (of_job_generated _ _ _ Hjob).
  - constructor; [done|]. eapply Forall_impl; [exact Hjob|]. by intros ev [].
  - change (forwarded (EvRandAlnum 8 (rand_alnum_w W h 8) :: ?evs))
      with (forwarded evs).
    by apply of_job_forwarded.
Qed.

Lemma crawl_one_correlation_id_witness :
  let run := crawl slow_page_world example_url 7 [] (new_store (Some 5)) in
  ∃ id : string,
    alnum_of_length 8 id ∧
    generated run.2 = [(8, id)] ∧
    Forall (carries (Some id)) run.2 ∧
    Forall (fun entry => entry.1 = (7, Some id)) (forwarded run.2).
Proof.
  intros run.
  apply (crawl_one_correlation_id slow_page_world example_url 7 []
           (new_store (Some 5)) run.1.1 run.1.2 run.2).
  - vm_compute. reflexivity.
  - split; vm_compute; reflexivity.
Defined.

(** ** What [crawl] returns *)

Ltac cleanup_step :=
  match goal with
  | |- context [chrome_queue ?σ !! ?c] =>
      destruct (chrome_queue σ !! c) eqn:?Hqueue
  end; crawler_simpl.

Lemma _cleanup_returns_true W url c did h σ v σ' evs :
  _cleanup W url c did h σ = (Return v, σ', evs) → v = VBool true.
Proof.
  unfold_crawler; crawler_simpl; repeat first [crawler_step | cleanup_step];
    by intros [= <- <- <-].
Qed.

(** C10: a call to [crawl] that does not raise returns [None], for every
    url and queue.  [_cleanup] returns [True] when it does not raise; that
    value is dropped in [_crawl] and does not reach the caller.  Both do
    return in the world in which no call raises. *)
Theorem crawl_returns_none :
  (∀ W url q h σ,
     (crawl W url q h σ).1.1 = Return VNone ∨
     ∃ e, (crawl W url q h σ).1.1 = Raise e) ∧
  (∀ W url c did h σ,
     (_cleanup W url c did h σ).1.1 = Return (VBool true) ∨
     ∃ e, (_cleanup W url c did h σ).1.1 = Raise e) ∧
  (crawl slow_page_world example_url 7 [] (new_store (Some 5))).1.1
  = Return VNone ∧
  (_cleanup slow_page_world example_url 1 (Some "a1B2c3D4") [] store_in_use).1.1
  = Return (VBool true).
Proof.
  split_and!; [| |by vm_compute..].
  - intros W url q h σ.
    destruct (crawl W url q h σ) as [[[v|e] σ'] evs] eqn:Hrun; [left|right; eauto].
    by destruct (crawl_return_inv _ _ _ _ _ _ _ _ Hrun) as [-> _].
  - intros W url c did h σ.
    destruct (_cleanup W url c did h σ) as [[[v|e] σ'] evs] eqn:Hrun;
      [left|right; eauto].
    by rewrite (_cleanup_returns_true _ _ _ _ _ _ _ _ _ Hrun).
Qed.

(** ** The strategies of a crawler *)

Lemma _crawl_body_strategies W url q did s h σ :
  _crawl_strategies (self (_crawl_body W url q did s h σ).1.2)
  = _crawl_strategies (self σ).
Proof. by crawler_run. Qed.

Lemma for_each_strategies W url q did l h σ :
  _crawl_strategies (self (for_each l (_crawl_body W url q did) h σ).1.2)
  = _crawl_strategies (self σ).
Proof.
  revert h σ; induction l as [|s l IH]; intros h σ; [done|].
  cbn [for_each]. unfold bind.
  pose proof (_crawl_body_strategies W url q did s h σ) as Hs.
  destruct (_crawl_body W url q did s h σ) as [[[[]|e] σ1] evs1];
    cbn [fst snd] in Hs |- *; [|done].
  specialize (IH (h ++ evs1) σ1).
  destruct (for_each l _ (h ++ evs1) σ1) as [[r2 σ2] evs2]; cbn [fst snd] in *.
  congruence.
Qed.

(** C8: [__init__] builds the list of strategies.  The JS strategy is its
    first element; the DOM dump strategy is its second element exactly when a
    web spider was given; so the list has one or two elements.  [crawl] and
    [terminate] leave the list as it was built. *)
Theorem strategies_built_at_construction uri_opener max_instances web_spider :
  let l := _crawl_strategies (__init__ uri_opener max_instances web_spider) in
  l !! 0 = Some ChromeCrawlerJS ∧
  l !! 1 = ChromeCrawlerDOMDump <$> web_spider ∧
  length l = match web_spider with Some _ => 2 | None => 1 end ∧
  l ≠ [] ∧
  (length l = 1 ∨ length l = 2) ∧
  (∀ W url q h σ,
     _crawl_strategies (self (crawl W url q h σ).1.2)
     = _crawl_strategies (self σ)) ∧
  (∀ h σ,
     _crawl_strategies (self (terminate h σ).1.2)
     = _crawl_strategies (self σ)).
Proof.
  split_and!; try by destruct web_spider.
  - destruct web_spider; [by right|by left].
  - intros W url q h σ. rewrite crawl_unfold. cbn zeta. cbn [fst snd].
    apply for_each_strategies.
Qed.

(** ** Shutting down *)

(** C6: [terminate] can be called twice.  Both calls return; after the
    first the crawler holds neither the uri opener nor the web spider, and the
    pool has no worker left; the second call changes nothing. *)
Theorem terminate_twice h σ :
  let first := terminate h σ in
  let second := terminate (h ++ first.2) first.1.2 in
  first.1.1 = Return VNone ∧
  second.1.1 = Return VNone ∧
  _uri_opener (self first.1.2) = None ∧
  _web_spider (self first.1.2) = None ∧
  _free (_pool (self first.1.2)) = ∅ ∧
  _in_use (_pool (self first.1.2)) = ∅ ∧
  second.1.2 = first.1.2 ∧
  first.2 = [EvPoolTerminate] ∧
  second.2 = [EvPoolTerminate].
Proof. by split_and!. Qed.

(** ** The diagnostic accessors *)

Lemma for_each_print msgs h σ :
  for_each msgs (fun console_message => emit (EvPrint console_message)) h σ
  = (Return tt, σ, map EvPrint msgs).
Proof.
  revert h; induction msgs as [|m msgs IH]; intros h; [done|].
  cbn [for_each]. unfold bind, emit at 1. by rewrite IH.
Qed.

(** C5, as the specification states it, fails: with one idle worker the
    console message accessor prints the messages and returns [None], not a
    sequence of strings. *)
Lemma print_all_console_messages_returns_none :
  let run := print_all_console_messages slow_page_world [] (store_with_idle {[1]}) in
  run.1.1 = Return VNone ∧
  run.2 = [EvPrint "hello"; EvPrint "world"] ∧
  ¬ returns_a_list run.1.1.
Proof.
  split_and!; [by vm_compute..|].
  intros [msgs Hmsgs]. vm_compute in Hmsgs. discriminate Hmsgs.
Qed.

(** C5, amended: when the pool does not have exactly one idle worker, both
    accessors raise an [AssertionError] that tells the number of idle workers,
    and do nothing else.  When it has exactly one, [get_js_errors] returns the
    JS errors of that worker, and [print_all_console_messages] prints its
    console messages in order and returns [None]. *)
Theorem diagnostic_accessors W h σ :
  let n := size (_free (_pool (self σ))) in
  let failed :=
    Raise (AssertionError
             ("Chrome pool has " +:+ pretty n +:+ " instances, one is required")) in
  (n ≠ 1 →
   print_all_console_messages W h σ = (failed, σ, []) ∧
   get_js_errors W h σ = (failed, σ, [])) ∧
  (n = 1 →
   ∃ c, _free (_pool (self σ)) = {[c]} ∧
        print_all_console_messages W h σ
        = (Return VNone, σ, map EvPrint (get_console_messages_w W h c)) ∧
        get_js_errors W h σ = (Return (VList (get_js_errors_w W h c)), σ, [])).
Proof.
  intros n failed. split.
  - intros Hn.
    unfold print_all_console_messages, get_js_errors, assert_one_free, bind, gets.
    fold n. by rewrite bool_decide_eq_false_2.
  - intros Hn. destruct (size_1_elem_of (_free (_pool (self σ))) Hn) as [c Hc].
    apply leibniz_equiv in Hc. exists c. split; [done|].
    unfold print_all_console_messages, get_js_errors, assert_one_free, first_free,
      bind, gets, ask, ret.
    fold n. rewrite bool_decide_eq_true_2 by done.
    rewrite Hc, elements_singleton. cbn [app fst snd].
    rewrite for_each_print. by rewrite ?app_nil_r.
Qed.

Lemma diagnostic_accessors_witness :
  (print_all_console_messages slow_page_world [] (store_with_idle ∅)
   = (Raise (AssertionError "Chrome pool has 0 instances, one is required"),
      store_with_idle ∅, []) ∧
   get_js_errors slow_page_world [] (store_with_idle ∅)
   = (Raise (AssertionError "Chrome pool has 0 instances, one is required"),
      store_with_idle ∅, [])) ∧
  ∃ c, _free (_pool (self (store_with_idle {[1]}))) = {[c]} ∧
       print_all_console_messages slow_page_world [] (store_with_idle {[1]})
       = (Return VNone, store_with_idle {[1]},
          map EvPrint (get_console_messages_w slow_page_world [] c)) ∧
       get_js_errors slow_page_world [] (store_with_idle {[1]})
       = (Return (VList (get_js_errors_w slow_page_world [] c)),
          store_with_idle {[1]}, []).
Proof.
  split.
  - change "Chrome pool has 0 instances, one is required"
      with ("Chrome pool has "
            +:+ pretty (size (_free (_pool (self (store_with_idle ∅)))))
            +:+ " instances, one is required").
    apply (proj1 (diagnostic_accessors slow_page_world [] (store_with_idle ∅))).
    vm_compute. discriminate.
  - apply (proj2 (diagnostic_accessors slow_page_world [] (store_with_idle {[1]}))).
    vm_compute. reflexivity.
Defined.

(** * Further properties of the crawler *)

(** ** Which exception reaches the caller *)

Lemma turn_raise_surfaced W url q did s e' cs :
  turn W url q did s (Raise e') cs →
  ∃ ev, failures cs = [ev] ∧ surfaced W url ev = Some e'.
Proof.
  inversion 1; subst;
    unfold evicted_if_interface_error;
    try destruct (is_chrome_interface_error e) eqn:Hcie;
    by (eexists; split; [reflexivity|]).
Qed.

(** X2: when [crawl] raises, one call of the job has raised, and that call
    decides the exception the caller gets.  A [ChromePoolException] of
    [pool.get] becomes a [ChromeCrawlerException] that quotes it; a chrome
    interface exception or timeout of [load_url], [wait_for_load], [stop] or
    [load_about_blank] becomes a [ChromeCrawlerException] with the message of
    that call; every other exception, and every exception of a strategy, is
    the one the caller gets. *)
Theorem crawl_raises_what W url q h σ e σ' evs :
  crawl W url q h σ = (Raise e, σ', evs) →
  ∃ ev, failures evs = [ev] ∧ surfaced W url ev = Some e.
Proof.
  intros (ws & s & cs_f & Hs & Hcs & T)%crawl_raise_inv.
  destruct (turn_raise_surfaced _ _ _ _ _ _ _ T) as (ev & Hev & Hsurf).
  exists ev. split; [|done].
  by rewrite <- failures_calls, Hcs, failures_app, failures_returned_turns.
Qed.

Lemma crawl_raises_what_witness :
  let W := with_load_url ([], Some timeout_error) slow_page_world in
  let run := crawl W example_url 7 [] (new_store None) in
  ∃ ev, failures run.2 = [ev] ∧
        surfaced W example_url ev
        = Some (ChromeCrawlerException
                  ("Failed to load http://example.test/ using <InstrumentedChrome>: "
                   +:+ dq +:+ "timeout waiting for event" +:+ dq)).
Proof.
  intros W run.
  apply (crawl_raises_what W example_url 7 [] (new_store None) _ run.1.2 run.2).
  vm_compute. reflexivity.
Defined.

(** ** A pool that has no worker to give *)





(** ** The first failure ends the job *)

Lemma turn_raise_last W url q did s e cs :
  turn W url q did s (Raise e) cs →
  ∃ pre ev rest,
    cs = pre ++ ev :: rest ∧
    has_raised ev = true ∧
    failures pre = [] ∧
    (rest = [] ∨ ∃ c, called_on ev = Some c ∧ rest = [EvPoolRemove c]).
Proof.
  inversion 1; subst; unfold evicted_if_interface_error;
    try destruct (is_chrome_interface_error _).
  - exists [], (EvPoolGet (CrawlerHTTPTrafficQueue_new q did) (inr e0)), []. eauto.
  - eexists [_; _], (EvLoadUrl c url (Some e0)), _. split_and!; eauto.
  - eexists [_; _], (EvLoadUrl c url (Some e0)), _. split_and!; eauto.
  - eexists [_; _; _], (EvWaitForLoad c (inr e0)), _. split_and!; eauto.
  - eexists [_; _; _], (EvWaitForLoad c (inr e0)), _. split_and!; eauto.
  - eexists [_; _; _; _], (EvStop c (Some e0)), _. split_and!; eauto.
  - eexists [_; _; _; _], (EvStop c (Some e0)), _. split_and!; eauto.
  - eexists [_; _; _; _; _], (EvStrategyCrawl s c url did (Some e)), _.
    split_and!; eauto.
  - eexists [_; _; _; _; _; _], (EvLoadAboutBlank c (Some e0)), _.
    split_and!; eauto.
  - eexists [_; _; _; _; _; _], (EvLoadAboutBlank c (Some e0)), _.
    split_and!; eauto.
Qed.

(** X3: a job stops at the first call that raises; nothing is tried again.
    A job that returns had no call that raised.  In a job that raises, no
    call raised before the failed one, and after it the crawler makes no call
    at all, or the one [pool.remove] of the chrome that the failed call was made
    on. *)
Theorem crawl_stops_at_first_failure W url q h σ r σ' evs :
  crawl W url q h σ = (r, σ', evs) →
  match r with
  | Return _ => failures evs = []
  | Raise _ =>
      ∃ pre ev rest,
        calls evs = pre ++ ev :: rest ∧
        has_raised ev = true ∧
        failures pre = [] ∧
        (rest = [] ∨ ∃ c, called_on ev = Some c ∧ rest = [EvPoolRemove c])
  end.
Proof.
  intros Hrun. destruct r as [v|e].
  - by eapply crawl_return_no_failure.
  - destruct (crawl_raise_inv _ _ _ _ _ _ _ _ Hrun) as (ws & s & cs_f & Hs & Hcs & T).
    destruct (turn_raise_last _ _ _ _ _ _ _ T) as (pre & ev & rest & -> & Hev & Hpre & Hrest).
    eexists (_ ++ pre), ev, rest. split_and!; [|done| |done].
    + by rewrite Hcs, <- app_assoc.
    + by rewrite failures_app, failures_returned_turns, Hpre.
Qed.

Lemma crawl_stops_at_first_failure_witness :
  let W := with_failing_strategy is_dom_dump timeout_error slow_page_world in
  let run := crawl W example_url 7 [] (new_store (Some 5)) in
  ∃ pre ev rest,
    calls run.2 = pre ++ ev :: rest ∧
    has_raised ev = true ∧
    failures pre = [] ∧
    (rest = [] ∨ ∃ c, called_on ev = Some c ∧ rest = [EvPoolRemove c]).
Proof.
  intros W run.
  apply (crawl_stops_at_first_failure W example_url 7 [] (new_store (Some 5))
           (Raise timeout_error) run.1.2 run.2).
  vm_compute. reflexivity.
Defined.

(** ** Every failure is written to the log *)

Lemma failure_lines_app evs evs' :
  failure_lines (evs ++ evs') = failure_lines evs ++ failure_lines evs'.
Proof. apply omap_app. Qed.

Lemma failure_lines_cons ev evs :
  failure_lines (ev :: evs)
  = match failure_line ev with
    | Some e => e :: failure_lines evs
    | None => failure_lines evs
    end.
Proof. reflexivity. Qed.

Lemma failure_lines_nil : failure_lines [] = [].
Proof. reflexivity. Qed.

Lemma failure_lines_puts q did xs :
  failure_lines (map (EvQueuePut q did) xs) = [].
Proof. induction xs; auto. Qed.

Ltac failure_lines_simpl :=
  repeat (progress (rewrite ?failure_lines_app, ?failure_lines_puts,
                      ?failure_lines_cons, ?failure_lines_nil;
                    cbn [failure_line app])).

Lemma _crawl_body_failure_lines W url q did s h σ :
  failure_lines (_crawl_body W url q did s h σ).2
  = match (_crawl_body W url q did s h σ).1.1 with
    | Return _ => []
    | Raise e => [e]
    end.
Proof. crawler_run; by failure_lines_simpl. Qed.

Lemma for_each_failure_lines W url q did l h σ :
  failure_lines (for_each l (_crawl_body W url q did) h σ).2
  = match (for_each l (_crawl_body W url q did) h σ).1.1 with
    | Return _ => []
    | Raise e => [e]
    end.
Proof.
  revert h σ; induction l as [|s l IH]; intros h σ; [done|].
  cbn [for_each]. unfold bind.
  pose proof (_crawl_body_failure_lines W url q did s h σ) as Hs.
  destruct (_crawl_body W url q did s h σ) as [[[[]|e] σ1] evs1];
    cbn [fst snd] in Hs |- *; [|done].
  specialize (IH (h ++ evs1) σ1).
  destruct (for_each l _ (h ++ evs1) σ1) as [[r2 σ2] evs2]; cbn [fst snd] in *.
  by rewrite failure_lines_app, Hs.
Qed.

(** X4: no exception leaves [crawl] unlogged, and nothing is logged as a
    failure that does not reach the caller.  The two handlers of [_crawl] write
    no line when the job returns; when the job raises they write one line, and
    it names the exception that the caller gets. *)
Theorem crawl_logs_the_failure W url q h σ :
  failure_lines (crawl W url q h σ).2
  = match (crawl W url q h σ).1.1 with
    | Return _ => []
    | Raise e => [e]
    end.
Proof.
  rewrite crawl_unfold. cbn zeta. cbn [fst snd].
  rewrite failure_lines_cons. cbn [failure_line].
  rewrite for_each_failure_lines.
  by destruct (for_each _ _ _ σ) as [[[[]|e] σ1] evs].
Qed.

(** ** The timing lines *)

Lemma count_of_app p evs evs' :
  count_of p (evs ++ evs') = count_of p evs + count_of p evs'.
Proof. unfold count_of. by rewrite List.filter_app, length_app. Qed.

Lemma count_of_cons p ev evs :
  count_of p (ev :: evs) = (if p ev then 1 else 0) + count_of p evs.
Proof. unfold count_of. cbn. by destruct (p ev). Qed.

Lemma count_of_nil p : count_of p [] = 0.
Proof. reflexivity. Qed.

Lemma count_of_puts p q did xs :
  (∀ x, p (EvQueuePut q did x) = false) →
  count_of p (map (EvQueuePut q did) xs) = 0.
Proof.
  intros Hp. induction xs as [|x xs IH]; [done|].
  cbn [map]. by rewrite count_of_cons, Hp, IH.
Qed.

Ltac count_of_simpl :=
  repeat (progress (rewrite ?count_of_app, ?count_of_cons, ?count_of_nil,
                      ?count_of_puts by done;
                    cbn [is_took_strategy is_took_get_chrome is_took_cleanup
                         is_strategy_call is_worker_handed_out is_free])).

Lemma timed_app evs evs' : timed evs → timed evs' → timed (evs ++ evs').
Proof.
  unfold timed. rewrite !count_of_app. intros (? & ? & ?) (? & ? & ?).
  split_and!; congruence.
Qed.

Lemma _crawl_body_timed W url q did s h σ :
  timed (_crawl_body W url q did s h σ).2.
Proof. crawler_run; unfold timed; count_of_simpl; by split_and!. Qed.

Lemma for_each_timed W url q did l h σ :
  timed (for_each l (_crawl_body W url q did) h σ).2.
Proof.
  revert h σ; induction l as [|s l IH]; intros h σ; [by split_and!|].
  cbn [for_each]. unfold bind.
  pose proof (_crawl_body_timed W url q did s h σ) as Hs.
  destruct (_crawl_body W url q did s h σ) as [[[[]|e] σ1] evs1];
    cbn [fst snd] in Hs |- *; [|done].
  specialize (IH (h ++ evs1) σ1).
  destruct (for_each l _ (h ++ evs1) σ1) as [[r2 σ2] evs2]; cbn [fst snd] in *.
  by apply timed_app.
Qed.

(** X5: the timing lines follow the calls on every path, also on the
    failing ones.  In every job the line of a strategy is sent once for each
    strategy that was invoked, whether it returned or raised; the line for
    getting a chrome instance is sent once for each worker the pool handed
    out; and the cleanup line is sent once for each worker given back. *)
Theorem crawl_timing_lines W url q h σ :
  let evs := (crawl W url q h σ).2 in
  count_of is_took_strategy evs = length (invoked evs) ∧
  count_of is_took_get_chrome evs = length (acquired evs) ∧
  count_of is_took_cleanup evs = count_of is_free evs.
Proof.
  cbn zeta. rewrite crawl_unfold. cbn zeta. cbn [snd].
  destruct (for_each_timed W url q (Some (rand_alnum_w W h 8))
              (_crawl_strategies (self σ))
              (h ++ [EvRandAlnum 8 (rand_alnum_w W h 8)]) σ) as (Hs & Hg & Hc).
  set (evs := (for_each _ _ _ σ).2) in *.
  assert (∀ evs, count_of is_strategy_call evs = length (invoked evs)) as Hinv.
  { clear. induction evs as [|ev evs IH]; [done|].
    rewrite count_of_cons. unfold invoked in *. destruct ev; cbn; lia. }
  assert (∀ evs, count_of is_worker_handed_out evs = length (acquired evs)) as Hacq.
  { clear. induction evs as [|ev evs IH]; [done|].
    rewrite count_of_cons. unfold acquired in *.
    destruct ev as [| | |? []| | | | | | | | | | |]; cbn; lia. }
  rewrite <- Hinv, <- Hacq, !count_of_cons. cbn. by split_and!.
Qed.

(** ** Borrowed workers *)





(** ** The order of the strategies *)

Lemma turn_raise_invoked W url q did s e cs :
  turn W url q did s (Raise e) cs →
  (invoked cs = [] ∨ invoked cs = [s]) ∧
  length (invoked cs) ≤ length (acquired cs) ≤ 1.
Proof.
  inversion 1; subst; unfold evicted_if_interface_error;
    try destruct (is_chrome_interface_error _); cbn; split; auto; lia.
Qed.

Lemma turns_invoked W url q did l r cs :
  turns W url q did l r cs →
  invoked cs `prefix_of` l ∧
  length (invoked cs) ≤ length (acquired cs) ≤ length l.
Proof.
  induction 1 as [|s l e cs T|s l cb r cs T [IHp IHl]].
  - done.
  - destruct (turn_raise_invoked _ _ _ _ _ _ _ T) as [[->| ->] Hlen].
    + split; [apply prefix_nil|cbn in *; lia].
    + split; [by apply prefix_cons, prefix_nil|cbn in *; lia].
  - rewrite invoked_app, acquired_app, !length_app. cbn. split; [|lia].
    by apply prefix_cons.
Qed.

(** X9: the strategies are invoked in the order of the list, each at most
    once and none before the ones ahead of it: in every job the strategies
    that were invoked are a prefix of the configured ones, and all of them when
    the job returns.  A strategy is invoked only with a worker of its own: there
    are never more invocations than workers handed out, and never more workers
    handed out than strategies. *)
Theorem crawl_invokes_in_order W url q h σ :
  let run := crawl W url q h σ in
  let l := _crawl_strategies (self σ) in
  invoked run.2 `prefix_of` l ∧
  length (invoked run.2) ≤ length (acquired run.2) ≤ length l ∧
  match run.1.1 with
  | Return _ => invoked run.2 = l
  | Raise _ => True
  end.
Proof.
  cbn zeta. destruct (crawl W url q h σ) as [[r σ'] evs] eqn:Hrun. cbn [fst snd].
  destruct (crawl_turns _ _ _ _ _ _ _ _ Hrun) as (r0 & _ & T).
  destruct (turns_invoked _ _ _ _ _ _ _ T) as [Hp Hl].
  rewrite invoked_calls, acquired_calls in *. split_and!; [done|lia|lia|].
  destruct r as [v|e]; [|done].
  destruct (crawl_return_inv _ _ _ _ _ _ _ _ Hrun) as (_ & ws & Hlen & Hcs).
  rewrite <- invoked_calls, Hcs, invoked_returned_turns, Hlen.
  apply firstn_all.
Qed.

(** ** The two phases on their own *)

(** X7: [_initial_page_load] hands the chrome it got from the pool to its
    caller loaded and stopped, and still borrowed: when it returns [c] its
    calls are [get], [set_debugging_id], [load_url], [wait_for_load] and [stop]
    on [c], in this order, with no free and no remove.  When it raises, one
    call has raised and decides the exception; no worker was freed; and the
    worker, if one was handed out, has been removed exactly when the failed
    call raised a chrome interface exception or timeout. *)
Theorem initial_page_load_contract W url q did h σ r σ' evs :
  _initial_page_load W url q did h σ = (r, σ', evs) →
  match r with
  | Return c => ∃ b, calls evs = loaded_calls url q did c b
  | Raise e =>
      ∃ ev e0,
        failures evs = [ev] ∧ raised ev = Some e0 ∧
        surfaced W url ev = Some e ∧
        pool_calls evs
        = match called_on ev with
          | Some c =>
              EvPoolGet (CrawlerHTTPTrafficQueue_new q did) (inl c)
              :: evicted_if_interface_error e0 c
          | None => [ev]
          end
  end.
Proof.
  crawler_run; intros [= <- <- <-];
    try rewrite <- failures_calls; try rewrite <- pool_calls_calls;
    calls_simpl.
  all: try (eexists; reflexivity).
  all: eexists _, _; (split; [reflexivity|]); (split; [reflexivity|]); cbn;
    unfold wrapped, evicted_if_interface_error;
    rewrite ?Hcie, ?Hcpe; split; reflexivity.
Qed.

Lemma initial_page_load_contract_witness :
  let run := _initial_page_load slow_page_world example_url 7 (Some "a1B2c3D4")
               [] (new_store None) in
  ∃ b, calls run.2 = loaded_calls example_url 7 (Some "a1B2c3D4") 1 b.
Proof.
  intros run.
  apply (initial_page_load_contract slow_page_world example_url 7
           (Some "a1B2c3D4") [] (new_store None) (Return 1) run.1.2 run.2).
  vm_compute. reflexivity.
Defined.

(** X8: [_cleanup] settles the chrome it is given, whatever happens to
    [load_about_blank].  For a chrome that has its traffic queue: when
    [_cleanup] returns, it has loaded the blank page and freed the chrome once,
    and removed nothing; when it raises, [load_about_blank] has raised, the
    chrome was not freed, and it was removed exactly when the exception was a
    chrome interface exception or timeout, which is then replaced by a
    [ChromeCrawlerException]. *)
Theorem cleanup_contract W url c did h σ r σ' evs :
  _cleanup W url c did h σ = (r, σ', evs) →
  is_Some (chrome_queue σ !! c) →
  match r with
  | Return v =>
      v = VBool true ∧ calls evs = [EvLoadAboutBlank c None; EvPoolFree c]
  | Raise e =>
      ∃ e0,
        calls evs
        = EvLoadAboutBlank c (Some e0) :: evicted_if_interface_error e0 c ∧
        e = wrapped e0 "Failed to load about:blank in chrome browser"
  end.
Proof.
  intros Hrun [wq Hwq]. revert Hrun.
  unfold_crawler; crawler_simpl. rewrite Hwq. crawler_simpl.
  repeat crawler_step; intros [= <- <- <-]; calls_simpl.
  all: try done.
  all: eexists; unfold wrapped, evicted_if_interface_error;
    rewrite ?Hcie; split; reflexivity.
Qed.

Lemma cleanup_contract_witness :
  let W := with_load_about_blank ([], Some timeout_error) slow_page_world in
  let run := _cleanup W example_url 1 (Some "a1B2c3D4") [] store_in_use in
  ∃ e0,
    calls run.2
    = EvLoadAboutBlank 1 (Some e0) :: evicted_if_interface_error e0 1 ∧
    ChromeCrawlerException "Failed to load about:blank in chrome browser"
    = wrapped e0 "Failed to load about:blank in chrome browser".
Proof.
  intros W run.
  apply (cleanup_contract W example_url 1 (Some "a1B2c3D4") [] store_in_use
           (Raise (ChromeCrawlerException
                     "Failed to load about:blank in chrome browser"))
           run.1.2 run.2).
  - vm_compute. reflexivity.
  - vm_compute. eauto.
Defined.
